(** * AES-128 with a first-order masked S-box (aes.c)

    A shallow embedding of [aes.c]: the masked AND gadget, the bitsliced
    masked S-box, the key schedule, the round transforms, the forward and
    inverse ciphers, and the ECB and CBC drivers over a small byte-addressed
    memory of disjoint buffers.

    Conventions.
    - A [uint8_t] is a [Z] in [0, 256); where C converts a wider value to
      [uint8_t] the truncation is written [u8].
    - A [state_t] (a [uint8_t[4][4]]) is the list of its sixteen bytes in
      memory order, so entry [i][j] of the C array is entry [4*i + j] of the list.
    - Functions that take a [state_t*] are embedded by value on the sixteen
      bytes; the drivers load and store the block at the pointer.
    - Buffers live in a memory made of separate regions; a pointer is a
      region together with a byte offset. *)

From Stdlib Require Import ZArith List Lia Bool Btauto Permutation.
Import ListNotations.
Local Open Scope Z_scope.

(** ** Bytes *)

Definition byte (x : Z) : Prop := 0 <= x < 256.

(** Conversion of an [int] to [uint8_t]. *)
Definition u8 (x : Z) : Z := Z.land x 255.

(** [(uint8_t) ~x]. *)
Definition not8 (x : Z) : Z := u8 (Z.lnot x).

Declare Scope c_scope.
Delimit Scope c_scope with c.
Infix ".^" := Z.lxor (at level 50, left associativity) : c_scope.
Infix ".&" := Z.land (at level 40, left associativity) : c_scope.
Infix ".|" := Z.lor (at level 50, left associativity) : c_scope.
Infix ">>" := Z.shiftr (at level 30, no associativity) : c_scope.
Infix "<<" := Z.shiftl (at level 30, no associativity) : c_scope.
Local Open Scope c_scope.

(** ** Constants *)

Definition Nb : nat := 4.
Definition Nk : nat := 4.
Definition KEYLEN : nat := 16.
Definition Nr : nat := 10.

(** ** Lookup tables *)

Definition sbox : list Z :=
  [
   0x63; 0x7c; 0x77; 0x7b; 0xf2; 0x6b; 0x6f; 0xc5; 0x30; 0x01; 0x67; 0x2b; 0xfe; 0xd7; 0xab; 0x76;
   0xca; 0x82; 0xc9; 0x7d; 0xfa; 0x59; 0x47; 0xf0; 0xad; 0xd4; 0xa2; 0xaf; 0x9c; 0xa4; 0x72; 0xc0;
   0xb7; 0xfd; 0x93; 0x26; 0x36; 0x3f; 0xf7; 0xcc; 0x34; 0xa5; 0xe5; 0xf1; 0x71; 0xd8; 0x31; 0x15;
   0x04; 0xc7; 0x23; 0xc3; 0x18; 0x96; 0x05; 0x9a; 0x07; 0x12; 0x80; 0xe2; 0xeb; 0x27; 0xb2; 0x75;
   0x09; 0x83; 0x2c; 0x1a; 0x1b; 0x6e; 0x5a; 0xa0; 0x52; 0x3b; 0xd6; 0xb3; 0x29; 0xe3; 0x2f; 0x84;
   0x53; 0xd1; 0x00; 0xed; 0x20; 0xfc; 0xb1; 0x5b; 0x6a; 0xcb; 0xbe; 0x39; 0x4a; 0x4c; 0x58; 0xcf;
   0xd0; 0xef; 0xaa; 0xfb; 0x43; 0x4d; 0x33; 0x85; 0x45; 0xf9; 0x02; 0x7f; 0x50; 0x3c; 0x9f; 0xa8;
   0x51; 0xa3; 0x40; 0x8f; 0x92; 0x9d; 0x38; 0xf5; 0xbc; 0xb6; 0xda; 0x21; 0x10; 0xff; 0xf3; 0xd2;
   0xcd; 0x0c; 0x13; 0xec; 0x5f; 0x97; 0x44; 0x17; 0xc4; 0xa7; 0x7e; 0x3d; 0x64; 0x5d; 0x19; 0x73;
   0x60; 0x81; 0x4f; 0xdc; 0x22; 0x2a; 0x90; 0x88; 0x46; 0xee; 0xb8; 0x14; 0xde; 0x5e; 0x0b; 0xdb;
   0xe0; 0x32; 0x3a; 0x0a; 0x49; 0x06; 0x24; 0x5c; 0xc2; 0xd3; 0xac; 0x62; 0x91; 0x95; 0xe4; 0x79;
   0xe7; 0xc8; 0x37; 0x6d; 0x8d; 0xd5; 0x4e; 0xa9; 0x6c; 0x56; 0xf4; 0xea; 0x65; 0x7a; 0xae; 0x08;
   0xba; 0x78; 0x25; 0x2e; 0x1c; 0xa6; 0xb4; 0xc6; 0xe8; 0xdd; 0x74; 0x1f; 0x4b; 0xbd; 0x8b; 0x8a;
   0x70; 0x3e; 0xb5; 0x66; 0x48; 0x03; 0xf6; 0x0e; 0x61; 0x35; 0x57; 0xb9; 0x86; 0xc1; 0x1d; 0x9e;
   0xe1; 0xf8; 0x98; 0x11; 0x69; 0xd9; 0x8e; 0x94; 0x9b; 0x1e; 0x87; 0xe9; 0xce; 0x55; 0x28; 0xdf;
   0x8c; 0xa1; 0x89; 0x0d; 0xbf; 0xe6; 0x42; 0x68; 0x41; 0x99; 0x2d; 0x0f; 0xb0; 0x54; 0xbb; 0x16
  ].

Definition rsbox : list Z :=
  [
   0x52; 0x09; 0x6a; 0xd5; 0x30; 0x36; 0xa5; 0x38; 0xbf; 0x40; 0xa3; 0x9e; 0x81; 0xf3; 0xd7; 0xfb;
   0x7c; 0xe3; 0x39; 0x82; 0x9b; 0x2f; 0xff; 0x87; 0x34; 0x8e; 0x43; 0x44; 0xc4; 0xde; 0xe9; 0xcb;
   0x54; 0x7b; 0x94; 0x32; 0xa6; 0xc2; 0x23; 0x3d; 0xee; 0x4c; 0x95; 0x0b; 0x42; 0xfa; 0xc3; 0x4e;
   0x08; 0x2e; 0xa1; 0x66; 0x28; 0xd9; 0x24; 0xb2; 0x76; 0x5b; 0xa2; 0x49; 0x6d; 0x8b; 0xd1; 0x25;
   0x72; 0xf8; 0xf6; 0x64; 0x86; 0x68; 0x98; 0x16; 0xd4; 0xa4; 0x5c; 0xcc; 0x5d; 0x65; 0xb6; 0x92;
   0x6c; 0x70; 0x48; 0x50; 0xfd; 0xed; 0xb9; 0xda; 0x5e; 0x15; 0x46; 0x57; 0xa7; 0x8d; 0x9d; 0x84;
   0x90; 0xd8; 0xab; 0x00; 0x8c; 0xbc; 0xd3; 0x0a; 0xf7; 0xe4; 0x58; 0x05; 0xb8; 0xb3; 0x45; 0x06;
   0xd0; 0x2c; 0x1e; 0x8f; 0xca; 0x3f; 0x0f; 0x02; 0xc1; 0xaf; 0xbd; 0x03; 0x01; 0x13; 0x8a; 0x6b;
   0x3a; 0x91; 0x11; 0x41; 0x4f; 0x67; 0xdc; 0xea; 0x97; 0xf2; 0xcf; 0xce; 0xf0; 0xb4; 0xe6; 0x73;
   0x96; 0xac; 0x74; 0x22; 0xe7; 0xad; 0x35; 0x85; 0xe2; 0xf9; 0x37; 0xe8; 0x1c; 0x75; 0xdf; 0x6e;
   0x47; 0xf1; 0x1a; 0x71; 0x1d; 0x29; 0xc5; 0x89; 0x6f; 0xb7; 0x62; 0x0e; 0xaa; 0x18; 0xbe; 0x1b;
   0xfc; 0x56; 0x3e; 0x4b; 0xc6; 0xd2; 0x79; 0x20; 0x9a; 0xdb; 0xc0; 0xfe; 0x78; 0xcd; 0x5a; 0xf4;
   0x1f; 0xdd; 0xa8; 0x33; 0x88; 0x07; 0xc7; 0x31; 0xb1; 0x12; 0x10; 0x59; 0x27; 0x80; 0xec; 0x5f;
   0x60; 0x51; 0x7f; 0xa9; 0x19; 0xb5; 0x4a; 0x0d; 0x2d; 0xe5; 0x7a; 0x9f; 0x93; 0xc9; 0x9c; 0xef;
   0xa0; 0xe0; 0x3b; 0x4d; 0xae; 0x2a; 0xf5; 0xb0; 0xc8; 0xeb; 0xbb; 0x3c; 0x83; 0x53; 0x99; 0x61;
   0x17; 0x2b; 0x04; 0x7e; 0xba; 0x77; 0xd6; 0x26; 0xe1; 0x69; 0x14; 0x63; 0x55; 0x21; 0x0c; 0x7d
  ].

Definition Rcon : list Z :=
  [
   0x8d; 0x01; 0x02; 0x04; 0x08; 0x10; 0x20; 0x40; 0x80; 0x1b; 0x36; 0x6c; 0xd8; 0xab; 0x4d; 0x9a;
   0x2f; 0x5e; 0xbc; 0x63; 0xc6; 0x97; 0x35; 0x6a; 0xd4; 0xb3; 0x7d; 0xfa; 0xef; 0xc5; 0x91; 0x39;
   0x72; 0xe4; 0xd3; 0xbd; 0x61; 0xc2; 0x9f; 0x25; 0x4a; 0x94; 0x33; 0x66; 0xcc; 0x83; 0x1d; 0x3a;
   0x74; 0xe8; 0xcb; 0x8d; 0x01; 0x02; 0x04; 0x08; 0x10; 0x20; 0x40; 0x80; 0x1b; 0x36; 0x6c; 0xd8;
   0xab; 0x4d; 0x9a; 0x2f; 0x5e; 0xbc; 0x63; 0xc6; 0x97; 0x35; 0x6a; 0xd4; 0xb3; 0x7d; 0xfa; 0xef;
   0xc5; 0x91; 0x39; 0x72; 0xe4; 0xd3; 0xbd; 0x61; 0xc2; 0x9f; 0x25; 0x4a; 0x94; 0x33; 0x66; 0xcc;
   0x83; 0x1d; 0x3a; 0x74; 0xe8; 0xcb; 0x8d; 0x01; 0x02; 0x04; 0x08; 0x10; 0x20; 0x40; 0x80; 0x1b;
   0x36; 0x6c; 0xd8; 0xab; 0x4d; 0x9a; 0x2f; 0x5e; 0xbc; 0x63; 0xc6; 0x97; 0x35; 0x6a; 0xd4; 0xb3;
   0x7d; 0xfa; 0xef; 0xc5; 0x91; 0x39; 0x72; 0xe4; 0xd3; 0xbd; 0x61; 0xc2; 0x9f; 0x25; 0x4a; 0x94;
   0x33; 0x66; 0xcc; 0x83; 0x1d; 0x3a; 0x74; 0xe8; 0xcb; 0x8d; 0x01; 0x02; 0x04; 0x08; 0x10; 0x20;
   0x40; 0x80; 0x1b; 0x36; 0x6c; 0xd8; 0xab; 0x4d; 0x9a; 0x2f; 0x5e; 0xbc; 0x63; 0xc6; 0x97; 0x35;
   0x6a; 0xd4; 0xb3; 0x7d; 0xfa; 0xef; 0xc5; 0x91; 0x39; 0x72; 0xe4; 0xd3; 0xbd; 0x61; 0xc2; 0x9f;
   0x25; 0x4a; 0x94; 0x33; 0x66; 0xcc; 0x83; 0x1d; 0x3a; 0x74; 0xe8; 0xcb; 0x8d; 0x01; 0x02; 0x04;
   0x08; 0x10; 0x20; 0x40; 0x80; 0x1b; 0x36; 0x6c; 0xd8; 0xab; 0x4d; 0x9a; 0x2f; 0x5e; 0xbc; 0x63;
   0xc6; 0x97; 0x35; 0x6a; 0xd4; 0xb3; 0x7d; 0xfa; 0xef; 0xc5; 0x91; 0x39; 0x72; 0xe4; 0xd3; 0xbd;
   0x61; 0xc2; 0x9f; 0x25; 0x4a; 0x94; 0x33; 0x66; 0xcc; 0x83; 0x1d; 0x3a; 0x74; 0xe8; 0xcb
  ].

(** ** The masked AND gadget *)

(** [_SAND(p1, p2, q1, q2, &z, &m)]; the pair is [(z, m)]. *)
Definition _SAND (p1 p2 q1 q2 : Z) : Z * Z :=
  let r := 0xff in
  let n1 := p1 .& q1 in
  let n11 := p2 .& q2 in
  let n2 := p2 .& q1 in
  let n3 := p1 .& q2 in
  let n4 := r .^ n1 in
  let m := n2 .^ n11 .^ r in
  let z := n3 .^ n4 in
  (z, m).

(** ** The S-box: table lookups and the masked circuit *)

Definition getSBoxValue (num : Z) : Z := nth (Z.to_nat num) sbox 0.

Definition getSBoxInvert (num : Z) : Z := nth (Z.to_nat num) rsbox 0.

(** Stages 1 to 4 of [getSBoxValuem]: unpacking into bit lanes, the top
    linear layer [T], the non-linear layer [M] and the bottom linear layer
    [L].  The result is the list [L0 .. L29] of value signals and the list
    [L0m .. L29m] of mask signals. *)
Definition sbox_layers (num numm : Z) : list Z * list Z :=
  let U_0 := num >> 0 in
  let U_1 := num >> 1 in
  let U_2 := num >> 2 in
  let U_3 := num >> 3 in
  let U_4 := num >> 4 in
  let U_5 := num >> 5 in
  let U_6 := num >> 6 in
  let U_7 := num >> 7 in
  let U_0m := numm >> 0 in
  let U_1m := numm >> 1 in
  let U_2m := numm >> 2 in
  let U_3m := numm >> 3 in
  let U_4m := numm >> 4 in
  let U_5m := numm >> 5 in
  let U_6m := numm >> 6 in
  let U_7m := numm >> 7 in
  let T1 := U_7 .^ U_4 in
  let T1m := U_7m .^ U_4m in
  let T2 := U_7 .^ U_2 in
  let T2m := U_7m .^ U_2m in
  let T3 := U_7 .^ U_1 in
  let T3m := U_7m .^ U_1m in
  let T4 := U_4 .^ U_2 in
  let T4m := U_4m .^ U_2m in
  let T5 := U_3 .^ U_1 in
  let T5m := U_3m .^ U_1m in
  let T6 := T1 .^ T5 in
  let T6m := T1m .^ T5m in
  let T7 := U_6 .^ U_5 in
  let T7m := U_6m .^ U_5m in
  let T8 := U_0 .^ T6 in
  let T8m := U_0m .^ T6m in
  let T9 := U_0 .^ T7 in
  let T9m := U_0m .^ T7m in
  let T10 := T6 .^ T7 in
  let T10m := T6m .^ T7m in
  let T11 := U_6 .^ U_2 in
  let T11m := U_6m .^ U_2m in
  let T12 := U_5 .^ U_2 in
  let T12m := U_5m .^ U_2m in
  let T13 := T3 .^ T4 in
  let T13m := T3m .^ T4m in
  let T14 := T6 .^ T11 in
  let T14m := T6m .^ T11m in
  let T15 := T5 .^ T11 in
  let T15m := T5m .^ T11m in
  let T16 := T5 .^ T12 in
  let T16m := T5m .^ T12m in
  let T17 := T9 .^ T16 in
  let T17m := T9m .^ T16m in
  let T18 := U_4 .^ U_0 in
  let T18m := U_4m .^ U_0m in
  let T19 := T7 .^ T18 in
  let T19m := T7m .^ T18m in
  let T20 := T1 .^ T19 in
  let T20m := T1m .^ T19m in
  let T21 := U_1 .^ U_0 in
  let T21m := U_1m .^ U_0m in
  let T22 := T7 .^ T21 in
  let T22m := T7m .^ T21m in
  let T23 := T2 .^ T22 in
  let T23m := T2m .^ T22m in
  let T24 := T2 .^ T10 in
  let T24m := T2m .^ T10m in
  let T25 := T20 .^ T17 in
  let T25m := T20m .^ T17m in
  let T26 := T3 .^ T16 in
  let T26m := T3m .^ T16m in
  let T27 := T1 .^ T12 in
  let T27m := T1m .^ T12m in
  let (M1, M1m) := _SAND T13 T13m T6 T6m in
  let (M2, M2m) := _SAND T23 T23m T8 T8m in
  let M3 := T14 .^ M1 in
  let M3m := T14m .^ M1m in
  let (M4, M4m) := _SAND T19 T19m U_0 U_0m in
  let M5 := M4 .^ M1 in
  let M5m := M4m .^ M1m in
  let (M6, M6m) := _SAND T3 T3m T16 T16m in
  let (M7, M7m) := _SAND T22 T22m T9 T9m in
  let M8 := T26 .^ M6 in
  let M8m := T26m .^ M6m in
  let (M9, M9m) := _SAND T20 T20m T17 T17m in
  let M10 := M9 .^ M6 in
  let M10m := M9m .^ M6m in
  let (M11, M11m) := _SAND T1 T1m T15 T15m in
  let (M12, M12m) := _SAND T4 T4m T27 T27m in
  let M13 := M12 .^ M11 in
  let M13m := M12m .^ M11m in
  let (M14, M14m) := _SAND T2 T2m T10 T10m in
  let M15 := M14 .^ M11 in
  let M15m := M14m .^ M11m in
  let M16 := M3 .^ M2 in
  let M16m := M3m .^ M2m in
  let M17 := M5 .^ T24 in
  let M17m := M5m .^ T24m in
  let M18 := M8 .^ M7 in
  let M18m := M8m .^ M7m in
  let M19 := M10 .^ M15 in
  let M19m := M10m .^ M15m in
  let M20 := M16 .^ M13 in
  let M20m := M16m .^ M13m in
  let M21 := M17 .^ M15 in
  let M21m := M17m .^ M15m in
  let M22 := M18 .^ M13 in
  let M22m := M18m .^ M13m in
  let M23 := M19 .^ T25 in
  let M23m := M19m .^ T25m in
  let M24 := M22 .^ M23 in
  let M24m := M22m .^ M23m in
  let (M25, M25m) := _SAND M22 M22m M20 M20m in
  let M26 := M21 .^ M25 in
  let M26m := M21m .^ M25m in
  let M27 := M20 .^ M21 in
  let M27m := M20m .^ M21m in
  let M28 := M23 .^ M25 in
  let M28m := M23m .^ M25m in
  let (M29, M29m) := _SAND M28 M28m M27 M27m in
  let (M30, M30m) := _SAND M26 M26m M24 M24m in
  let (M31, M31m) := _SAND M20 M20m M23 M23m in
  let (M32, M32m) := _SAND M27 M27m M31 M31m in
  let M33 := M27 .^ M25 in
  let M33m := M27m .^ M25m in
  let (M34, M34m) := _SAND M21 M21m M22 M22m in
  let (M35, M35m) := _SAND M24 M24m M34 M34m in
  let M36 := M24 .^ M25 in
  let M36m := M24m .^ M25m in
  let M37 := M21 .^ M29 in
  let M37m := M21m .^ M29m in
  let M38 := M32 .^ M33 in
  let M38m := M32m .^ M33m in
  let M39 := M23 .^ M30 in
  let M39m := M23m .^ M30m in
  let M40 := M35 .^ M36 in
  let M40m := M35m .^ M36m in
  let M41 := M38 .^ M40 in
  let M41m := M38m .^ M40m in
  let M42 := M37 .^ M39 in
  let M42m := M37m .^ M39m in
  let M43 := M37 .^ M38 in
  let M43m := M37m .^ M38m in
  let M44 := M39 .^ M40 in
  let M44m := M39m .^ M40m in
  let M45 := M42 .^ M41 in
  let M45m := M42m .^ M41m in
  let (M46, M46m) := _SAND M44 M44m T6 T6m in
  let (M47, M47m) := _SAND M40 M40m T8 T8m in
  let (M48, M48m) := _SAND M39 M39m U_0 U_0m in
  let (M49, M49m) := _SAND M43 M43m T16 T16m in
  let (M50, M50m) := _SAND M38 M38m T9 T9m in
  let (M51, M51m) := _SAND M37 M37m T17 T17m in
  let (M52, M52m) := _SAND M42 M42m T15 T15m in
  let (M53, M53m) := _SAND M45 M45m T27 T27m in
  let (M54, M54m) := _SAND M41 M41m T10 T10m in
  let (M55, M55m) := _SAND M44 M44m T13 T13m in
  let (M56, M56m) := _SAND M40 M40m T23 T23m in
  let (M57, M57m) := _SAND M39 M39m T19 T19m in
  let (M58, M58m) := _SAND M43 M43m T3 T3m in
  let (M59, M59m) := _SAND M38 M38m T22 T22m in
  let (M60, M60m) := _SAND M37 M37m T20 T20m in
  let (M61, M61m) := _SAND M42 M42m T1 T1m in
  let (M62, M62m) := _SAND M45 M45m T4 T4m in
  let (M63, M63m) := _SAND M41 M41m T2 T2m in
  let L0 := M61 .^ M62 in
  let L0m := M61m .^ M62m in
  let L1 := M50 .^ M56 in
  let L1m := M50m .^ M56m in
  let L2 := M46 .^ M48 in
  let L2m := M46m .^ M48m in
  let L3 := M47 .^ M55 in
  let L3m := M47m .^ M55m in
  let L4 := M54 .^ M58 in
  let L4m := M54m .^ M58m in
  let L5 := M49 .^ M61 in
  let L5m := M49m .^ M61m in
  let L6 := M62 .^ L5 in
  let L6m := M62m .^ L5m in
  let L7 := M46 .^ L3 in
  let L7m := M46m .^ L3m in
  let L8 := M51 .^ M59 in
  let L8m := M51m .^ M59m in
  let L9 := M52 .^ M53 in
  let L9m := M52m .^ M53m in
  let L10 := M53 .^ L4 in
  let L10m := M53m .^ L4m in
  let L11 := M60 .^ L2 in
  let L11m := M60m .^ L2m in
  let L12 := M48 .^ M51 in
  let L12m := M48m .^ M51m in
  let L13 := M50 .^ L0 in
  let L13m := M50m .^ L0m in
  let L14 := M52 .^ M61 in
  let L14m := M52m .^ M61m in
  let L15 := M55 .^ L1 in
  let L15m := M55m .^ L1m in
  let L16 := M56 .^ L0 in
  let L16m := M56m .^ L0m in
  let L17 := M57 .^ L1 in
  let L17m := M57m .^ L1m in
  let L18 := M58 .^ L8 in
  let L18m := M58m .^ L8m in
  let L19 := M63 .^ L4 in
  let L19m := M63m .^ L4m in
  let L20 := L0 .^ L1 in
  let L20m := L0m .^ L1m in
  let L21 := L1 .^ L7 in
  let L21m := L1m .^ L7m in
  let L22 := L3 .^ L12 in
  let L22m := L3m .^ L12m in
  let L23 := L18 .^ L2 in
  let L23m := L18m .^ L2m in
  let L24 := L15 .^ L9 in
  let L24m := L15m .^ L9m in
  let L25 := L6 .^ L10 in
  let L25m := L6m .^ L10m in
  let L26 := L7 .^ L9 in
  let L26m := L7m .^ L9m in
  let L27 := L8 .^ L10 in
  let L27m := L8m .^ L10m in
  let L28 := L11 .^ L14 in
  let L28m := L11m .^ L14m in
  let L29 := L11 .^ L17 in
  let L29m := L11m .^ L17m in
  ([L0; L1; L2; L3; L4; L5; L6; L7; L8; L9; L10; L11; L12; L13; L14;
    L15; L16; L17; L18; L19; L20; L21; L22; L23; L24; L25; L26; L27; L28; L29],
   [L0m; L1m; L2m; L3m; L4m; L5m; L6m; L7m; L8m; L9m; L10m; L11m; L12m; L13m; L14m;
    L15m; L16m; L17m; L18m; L19m; L20m; L21m; L22m; L23m; L24m; L25m; L26m; L27m; L28m; L29m]).

(** Stage 5 on the value lanes: the lanes [U_0 .. U_7] from the signals
    [L0 .. L29]. *)
Definition output_value (L : list Z) : list Z :=
  let L6 := nth 6 L 0 in
  let L13 := nth 13 L 0 in
  let L16 := nth 16 L 0 in
  let L19 := nth 19 L 0 in
  let L20 := nth 20 L 0 in
  let L21 := nth 21 L 0 in
  let L22 := nth 22 L 0 in
  let L23 := nth 23 L 0 in
  let L24 := nth 24 L 0 in
  let L25 := nth 25 L 0 in
  let L26 := nth 26 L 0 in
  let L27 := nth 27 L 0 in
  let L28 := nth 28 L 0 in
  let L29 := nth 29 L 0 in
  let U_7 := L6 .^ L24 in
  let U_6 := not8 (L16 .^ L26) in
  let U_5 := not8 (L19 .^ L28) in
  let U_4 := L6 .^ L21 in
  let U_3 := L20 .^ L22 in
  let U_2 := L25 .^ L29 in
  let U_1 := not8 (L13 .^ L27) in
  let U_0 := not8 (L6 .^ L23) in
  [U_0; U_1; U_2; U_3; U_4; U_5; U_6; U_7].

(** Stage 5 on the mask lanes: [U_0m .. U_7m] from [L0m .. L29m]. *)
Definition output_mask (Lm : list Z) : list Z :=
  let L6m := nth 6 Lm 0 in
  let L13m := nth 13 Lm 0 in
  let L16m := nth 16 Lm 0 in
  let L19m := nth 19 Lm 0 in
  let L20m := nth 20 Lm 0 in
  let L21m := nth 21 Lm 0 in
  let L22m := nth 22 Lm 0 in
  let L23m := nth 23 Lm 0 in
  let L24m := nth 24 Lm 0 in
  let L25m := nth 25 Lm 0 in
  let L26m := nth 26 Lm 0 in
  let L27m := nth 27 Lm 0 in
  let L28m := nth 28 Lm 0 in
  let L29m := nth 29 Lm 0 in
  let U_7m := L6m .^ L24m in
  let U_6m := L16m .^ L26m in
  let U_5m := L19m .^ L28m in
  let U_4m := L6m .^ L21m in
  let U_3m := L20m .^ L22m in
  let U_2m := L25m .^ L29m in
  let U_1m := L13m .^ L27m in
  let U_0m := L6m .^ L23m in
  [U_0m; U_1m; U_2m; U_3m; U_4m; U_5m; U_6m; U_7m].

(** Stage 6: bit 0 of lanes 0 to 6 and the whole of lane 7 shifted to
    position 7, converted to [uint8_t]. *)
Definition repack (U : list Z) : Z :=
  let U_0 := nth 0 U 0 in
  let U_1 := nth 1 U 0 in
  let U_2 := nth 2 U 0 in
  let U_3 := nth 3 U 0 in
  let U_4 := nth 4 U 0 in
  let U_5 := nth 5 U 0 in
  let U_6 := nth 6 U 0 in
  let U_7 := nth 7 U 0 in
  u8 (((U_0 .& 0x01) << 0) .|
      ((U_1 .& 0x01) << 1) .|
      ((U_2 .& 0x01) << 2) .|
      ((U_3 .& 0x01) << 3) .|
      ((U_4 .& 0x01) << 4) .|
      ((U_5 .& 0x01) << 5) .|
      ((U_6 .& 0x01) << 6) .|
      ((U_7) << 7)).

(** [getSBoxValuem(num, &numm)]: the pair is the returned byte [t] and the
    byte [tm] written back through [numm]. *)
Definition getSBoxValuem (num numm : Z) : Z * Z :=
  let (L, Lm) := sbox_layers num numm in
  let t := repack (output_value L) in
  let tm := repack (output_mask Lm) in
  (t, tm).

(** ** Arrays and loops *)

(** [l[i] = v] on a C array; an index outside the array leaves it as it is
    (the theorems below only store inside the arrays). *)
Fixpoint upd {A : Type} (i : nat) (v : A) (l : list A) : list A :=
  match l, i with
  | [], _ => []
  | _ :: t, O => v :: t
  | h :: t, S i' => h :: upd i' v t
  end.

(** [for (i = lo; i < hi; ++i) body]. *)
Definition for_range {S : Type} (lo hi : nat) (body : nat -> S -> S) (s : S) : S :=
  fold_left (fun s i => body i s) (seq lo (hi - lo)) s.

(** [for (i = hi; i > lo; i--) body]. *)
Definition for_down {S : Type} (hi lo : nat) (body : nat -> S -> S) (s : S) : S :=
  fold_left (fun s i => body i s) (rev (seq (lo + 1) (hi - lo))) s.

Definition state_t : Type := list Z.

(** Entry [i][j] of a [state_t]. *)
Definition sget (state : state_t) (i j : nat) : Z := nth (4 * i + j) state 0.
Definition sset (state : state_t) (i j : nat) (v : Z) : state_t := upd (4 * i + j) v state.

(** ** Key schedule *)

(** [KeyExpansion()]: [Key] gives the byte [Key[k]], [RoundKey] is the
    176-byte array that the function fills.  The local [tempa] is not
    initialised in C; every entry is written before it is read. *)
Definition KeyExpansion (Key : nat -> Z) (RoundKey : list Z) : list Z :=
  let RoundKey :=
    for_range 0 Nk (fun i RoundKey =>
      let RoundKey := upd (i * 4 + 0) (Key (i * 4 + 0)%nat) RoundKey in
      let RoundKey := upd (i * 4 + 1) (Key (i * 4 + 1)%nat) RoundKey in
      let RoundKey := upd (i * 4 + 2) (Key (i * 4 + 2)%nat) RoundKey in
      let RoundKey := upd (i * 4 + 3) (Key (i * 4 + 3)%nat) RoundKey in
      RoundKey) RoundKey in
  snd (for_range Nk (Nb * (Nr + 1)) (fun i '(tempa, RoundKey) =>
    let tempa :=
      for_range 0 4 (fun j tempa =>
        upd j (nth ((i - 1) * 4 + j) RoundKey 0) tempa) tempa in
    let tempa :=
      if (i mod Nk =? 0)%nat then
        let k := nth 0 tempa 0 in
        let tempa := upd 0 (nth 1 tempa 0) tempa in
        let tempa := upd 1 (nth 2 tempa 0) tempa in
        let tempa := upd 2 (nth 3 tempa 0) tempa in
        let tempa := upd 3 k tempa in
        let tempa := upd 0 (getSBoxValue (nth 0 tempa 0)) tempa in
        let tempa := upd 1 (getSBoxValue (nth 1 tempa 0)) tempa in
        let tempa := upd 2 (getSBoxValue (nth 2 tempa 0)) tempa in
        let tempa := upd 3 (getSBoxValue (nth 3 tempa 0)) tempa in
        upd 0 (nth 0 tempa 0 .^ nth (i / Nk) Rcon 0) tempa
      else if (6 <? Nk)%nat && (i mod Nk =? 4)%nat then
        let tempa := upd 0 (getSBoxValue (nth 0 tempa 0)) tempa in
        let tempa := upd 1 (getSBoxValue (nth 1 tempa 0)) tempa in
        let tempa := upd 2 (getSBoxValue (nth 2 tempa 0)) tempa in
        let tempa := upd 3 (getSBoxValue (nth 3 tempa 0)) tempa in
        tempa
      else tempa in
    let RoundKey := upd (i * 4 + 0) (nth ((i - Nk) * 4 + 0) RoundKey 0 .^ nth 0 tempa 0) RoundKey in
    let RoundKey := upd (i * 4 + 1) (nth ((i - Nk) * 4 + 1) RoundKey 0 .^ nth 1 tempa 0) RoundKey in
    let RoundKey := upd (i * 4 + 2) (nth ((i - Nk) * 4 + 2) RoundKey 0 .^ nth 2 tempa 0) RoundKey in
    let RoundKey := upd (i * 4 + 3) (nth ((i - Nk) * 4 + 3) RoundKey 0 .^ nth 3 tempa 0) RoundKey in
    (tempa, RoundKey)) ([0; 0; 0; 0], RoundKey)).

(** ** Round transforms *)

(** [AddRoundKey(state, round)], reading the round keys from [RoundKey]. *)
Definition AddRoundKey (RoundKey : list Z) (state : state_t) (round : nat) : state_t :=
  for_range 0 4 (fun i state =>
    for_range 0 4 (fun j state =>
      sset state i j (sget state i j .^ nth (round * Nb * 4 + i * Nb + j) RoundKey 0))
      state) state.

(** [SubBytesm(state, statem)]: the masked S-box on every byte, the mask
    byte being updated through the pointer. *)
Definition SubBytesm (state statem : state_t) : state_t * state_t :=
  for_range 0 4 (fun i st =>
    for_range 0 4 (fun j st =>
      let r := getSBoxValuem (sget (fst st) j i) (sget (snd st) j i) in
      (sset (fst st) j i (fst r), sset (snd st) j i (snd r))) st) (state, statem).

(** [SubBytes(state, statem)]: the table S-box on every byte; [statem] is
    not used. *)
Definition SubBytes (state statem : state_t) : state_t :=
  for_range 0 4 (fun i state =>
    for_range 0 4 (fun j state =>
      sset state j i (getSBoxValue (sget state j i))) state) state.

Definition ShiftRows (state : state_t) : state_t :=
  let temp := sget state 0 1 in
  let state := sset state 0 1 (sget state 1 1) in
  let state := sset state 1 1 (sget state 2 1) in
  let state := sset state 2 1 (sget state 3 1) in
  let state := sset state 3 1 temp in
  let temp := sget state 0 2 in
  let state := sset state 0 2 (sget state 2 2) in
  let state := sset state 2 2 temp in
  let temp := sget state 1 2 in
  let state := sset state 1 2 (sget state 3 2) in
  let state := sset state 3 2 temp in
  let temp := sget state 0 3 in
  let state := sset state 0 3 (sget state 3 3) in
  let state := sset state 3 3 (sget state 2 3) in
  let state := sset state 2 3 (sget state 1 3) in
  let state := sset state 1 3 temp in
  state.

Definition xtime (x : Z) : Z := u8 ((x << 1) .^ (((x >> 7) .& 1) * 0x1b)).

Definition MixColumns (state : state_t) : state_t :=
  for_range 0 4 (fun i state =>
    let t := sget state i 0 in
    let Tmp := sget state i 0 .^ sget state i 1 .^ sget state i 2 .^ sget state i 3 in
    let Tm := sget state i 0 .^ sget state i 1 in
    let Tm := xtime Tm in
    let state := sset state i 0 (sget state i 0 .^ (Tm .^ Tmp)) in
    let Tm := sget state i 1 .^ sget state i 2 in
    let Tm := xtime Tm in
    let state := sset state i 1 (sget state i 1 .^ (Tm .^ Tmp)) in
    let Tm := sget state i 2 .^ sget state i 3 in
    let Tm := xtime Tm in
    let state := sset state i 2 (sget state i 2 .^ (Tm .^ Tmp)) in
    let Tm := sget state i 3 .^ t in
    let Tm := xtime Tm in
    let state := sset state i 3 (sget state i 3 .^ (Tm .^ Tmp)) in
    state) state.

Definition Multiply (x y : Z) : Z :=
  ((y .& 1) * x) .^
  (((y >> 1) .& 1) * xtime x) .^
  (((y >> 2) .& 1) * xtime (xtime x)) .^
  (((y >> 3) .& 1) * xtime (xtime (xtime x))) .^
  (((y >> 4) .& 1) * xtime (xtime (xtime (xtime x)))).

Definition InvMixColumns (state : state_t) : state_t :=
  for_range 0 4 (fun i state =>
    let a := sget state i 0 in
    let b := sget state i 1 in
    let c := sget state i 2 in
    let d := sget state i 3 in
    let state := sset state i 0
      (Multiply a 0x0e .^ Multiply b 0x0b .^ Multiply c 0x0d .^ Multiply d 0x09) in
    let state := sset state i 1
      (Multiply a 0x09 .^ Multiply b 0x0e .^ Multiply c 0x0b .^ Multiply d 0x0d) in
    let state := sset state i 2
      (Multiply a 0x0d .^ Multiply b 0x09 .^ Multiply c 0x0e .^ Multiply d 0x0b) in
    let state := sset state i 3
      (Multiply a 0x0b .^ Multiply b 0x0d .^ Multiply c 0x09 .^ Multiply d 0x0e) in
    state) state.

Definition InvSubBytes (state : state_t) : state_t :=
  for_range 0 4 (fun i state =>
    for_range 0 4 (fun j state =>
      sset state j i (getSBoxInvert (sget state j i))) state) state.

Definition InvShiftRows (state : state_t) : state_t :=
  let temp := sget state 3 1 in
  let state := sset state 3 1 (sget state 2 1) in
  let state := sset state 2 1 (sget state 1 1) in
  let state := sset state 1 1 (sget state 0 1) in
  let state := sset state 0 1 temp in
  let temp := sget state 0 2 in
  let state := sset state 0 2 (sget state 2 2) in
  let state := sset state 2 2 temp in
  let temp := sget state 1 2 in
  let state := sset state 1 2 (sget state 3 2) in
  let state := sset state 3 2 temp in
  let temp := sget state 0 3 in
  let state := sset state 0 3 (sget state 1 3) in
  let state := sset state 1 3 (sget state 2 3) in
  let state := sset state 2 3 (sget state 3 3) in
  let state := sset state 3 3 temp in
  state.

(** ** The forward and inverse ciphers *)

(** The mask seed of [Cipher]. *)
Definition rng : state_t :=
  [0x13; 0x05; 0x59; 0x81; 0x49; 0xaf; 0xb3; 0x30;
   0x29; 0x11; 0xc4; 0xbb; 0x91; 0xe4; 0x98; 0x44].

(** The double loop [state[i][j] ^= statem[i][j]] that adds and removes
    the mask in [Cipher]. *)
Definition xor_mask (state statem : state_t) : state_t :=
  for_range 0 4 (fun i state =>
    for_range 0 4 (fun j state =>
      sset state i j (sget state i j .^ sget statem i j)) state) state.

(** The body of [Cipher] with the mask seed as a parameter. *)
Definition Cipher_seeded (seed : state_t) (RoundKey : list Z) (state : state_t) : state_t :=
  let statem : state_t := seed in
  let state := xor_mask state statem in
  let state := AddRoundKey RoundKey state 0 in
  let st :=
    for_range 1 Nr (fun round st =>
      let st := SubBytesm (fst st) (snd st) in
      let state := ShiftRows (fst st) in
      let statem := ShiftRows (snd st) in
      let state := MixColumns state in
      let statem := MixColumns statem in
      let state := AddRoundKey RoundKey state round in
      (state, statem)) (state, statem) in
  let st := SubBytesm (fst st) (snd st) in
  let state := ShiftRows (fst st) in
  let statem := ShiftRows (snd st) in
  let state := AddRoundKey RoundKey state Nr in
  xor_mask state statem.

(** [Cipher(state)]: the seed is the constant [rng]. *)
Definition Cipher (RoundKey : list Z) (state : state_t) : state_t :=
  Cipher_seeded rng RoundKey state.

Definition InvCipher (RoundKey : list Z) (state : state_t) : state_t :=
  let state := AddRoundKey RoundKey state Nr in
  let state :=
    for_down (Nr - 1) 0 (fun round state =>
      let state := InvShiftRows state in
      let state := InvSubBytes state in
      let state := AddRoundKey RoundKey state round in
      let state := InvMixColumns state in
      state) state in
  let state := InvShiftRows state in
  let state := InvSubBytes state in
  let state := AddRoundKey RoundKey state 0 in
  state.

(** ** Memory, pointers and file-scope variables *)

(** The memory is a list of regions, one per buffer of the caller; a region
    is the list of its bytes.  A load outside a region reads 0 and a store
    outside a region does nothing; C leaves both undefined, and the
    theorems on the drivers ask for the buffers to be large enough. *)
Definition mem : Type := list (list Z).

Record ptr : Type := Ptr { base : nat; off : nat }.

(** [p + n]. *)
Definition padd (p : ptr) (n : nat) : ptr := Ptr (base p) (off p + n).

Definition region (m : mem) (r : nat) : list Z := nth r m [].

(** [p[i]]. *)
Definition load (m : mem) (p : ptr) (i : nat) : Z :=
  nth (off p + i) (region m (base p)) 0.

(** [p[i] = v]. *)
Definition store (m : mem) (p : ptr) (i : nat) (v : Z) : mem :=
  upd (base p) (upd (off p + i) v (region m (base p))) m.

(** The [n] bytes at [p]. *)
Definition read (m : mem) (p : ptr) (n : nat) : list Z :=
  map (load m p) (seq 0 n).

(** The [n] bytes at [p] lie inside the region of [p]. *)
Definition valid (m : mem) (p : ptr) (n : nat) : Prop :=
  (off p + n <= length (region m (base p)))%nat.

(** The file-scope variables [RoundKey], [Key] and [Iv]; [None] is the null
    pointer. *)
Record globals : Type := Globals {
  RoundKey : list Z;
  Key : option ptr;
  Iv : option ptr
}.

(** What a call comes to: it returns, it dereferences a null pointer, or
    the loop budget of the model is used up. *)
Inductive outcome (A : Type) : Type :=
| Done (a : A)
| NullDeref
| OutOfFuel.
Arguments Done {A} a.
Arguments NullDeref {A}.
Arguments OutOfFuel {A}.

Definition bind {A B : Type} (c : outcome A) (k : A -> outcome B) : outcome B :=
  match c with
  | Done a => k a
  | NullDeref => NullDeref
  | OutOfFuel => OutOfFuel
  end.

Notation "x <- c ;; k" := (bind c (fun x => k))
  (at level 61, c at next level, right associativity) : c_scope.

(** ** Drivers *)

Definition BlockCopy (output input : ptr) (m : mem) : mem :=
  for_range 0 KEYLEN (fun i m => store m output i (load m input i)) m.

(** [memset(p, c, n)]. *)
Definition memset (p : ptr) (c : Z) (n : nat) (m : mem) : mem :=
  for_range 0 n (fun i m => store m p i (u8 c)) m.

(** The [state_t] at a pointer, and writing one back. *)
Definition load_state (m : mem) (p : ptr) : state_t := read m p 16.

Definition store_state (m : mem) (p : ptr) (s : state_t) : mem :=
  for_range 0 16 (fun i m => store m p i (nth i s 0)) m.

(** [KeyExpansion()] on the file-scope [Key] and [RoundKey]. *)
Definition KeyExpansion_at (g : globals) (m : mem) : outcome globals :=
  match Key g with
  | None => NullDeref
  | Some k => Done (Globals (KeyExpansion (load m k) (RoundKey g)) (Key g) (Iv g))
  end.

(** [Cipher(state)] and [InvCipher(state)] on the block at [state]. *)
Definition Cipher_at (state : ptr) (g : globals) (m : mem) : mem :=
  store_state m state (Cipher (RoundKey g) (load_state m state)).

Definition InvCipher_at (state : ptr) (g : globals) (m : mem) : mem :=
  store_state m state (InvCipher (RoundKey g) (load_state m state)).

Definition AES128_ECB_encrypt (input key output : ptr) (g : globals) (m : mem)
  : outcome (globals * mem) :=
  let m := BlockCopy output input m in
  let g := Globals (RoundKey g) (Some key) (Iv g) in
  g <- KeyExpansion_at g m ;;
  let m := Cipher_at output g m in
  Done (g, m).

Definition AES128_ECB_decrypt (input key output : ptr) (g : globals) (m : mem)
  : outcome (globals * mem) :=
  let m := BlockCopy output input m in
  let g := Globals (RoundKey g) (Some key) (Iv g) in
  g <- KeyExpansion_at g m ;;
  let m := InvCipher_at output g m in
  Done (g, m).

Definition XorWithIv (buf : ptr) (g : globals) (m : mem) : outcome mem :=
  match Iv g with
  | None => NullDeref
  | Some iv =>
      Done (for_range 0 KEYLEN (fun i m => store m buf i (load m buf i .^ load m iv i)) m)
  end.

(** The state of the block loops: the moving [input] and [output] pointers,
    the file-scope variables and the memory. *)
Definition loop_state : Type := ptr * ptr * globals * mem.

(** [for (i = 0; i < length; i += KEYLEN) { ... }] of
    [AES128_CBC_encrypt_buffer], started at [i]; [fuel] bounds the number of
    tests of the loop condition. *)
Fixpoint cbc_encrypt_loop (fuel : nat) (i length : Z) (input output : ptr)
  (g : globals) (m : mem) : outcome loop_state :=
  match fuel with
  | O => OutOfFuel
  | S fuel' =>
      if i <? length then
        m <- XorWithIv input g m ;;
        let m := BlockCopy output input m in
        let m := Cipher_at output g m in
        let g := Globals (RoundKey g) (Key g) (Some output) in
        let input := padd input KEYLEN in
        let output := padd output KEYLEN in
        cbc_encrypt_loop fuel' (i + Z.of_nat KEYLEN) length input output g m
      else Done (input, output, g, m)
  end.

(** The same loop of [AES128_CBC_decrypt_buffer]. *)
Fixpoint cbc_decrypt_loop (fuel : nat) (i length : Z) (input output : ptr)
  (g : globals) (m : mem) : outcome loop_state :=
  match fuel with
  | O => OutOfFuel
  | S fuel' =>
      if i <? length then
        let m := BlockCopy output input m in
        let m := InvCipher_at output g m in
        m <- XorWithIv output g m ;;
        let g := Globals (RoundKey g) (Key g) (Some input) in
        let input := padd input KEYLEN in
        let output := padd output KEYLEN in
        cbc_decrypt_loop fuel' (i + Z.of_nat KEYLEN) length input output g m
      else Done (input, output, g, m)
  end.

(** The loop variable grows by 16 at every turn, so [length + 1] tests of
    the condition are never all used. *)
Definition loop_fuel (length : Z) : nat := S (Z.to_nat length).

(** [AES128_CBC_encrypt_buffer(output, input, length, key, iv)]; [length]
    is a [uint32_t], [key] and [iv] may be null. *)
Definition AES128_CBC_encrypt_buffer (output input : ptr) (length : Z)
  (key iv : option ptr) (g : globals) (m : mem) : outcome (globals * mem) :=
  let remainders := u8 (length mod Z.of_nat KEYLEN) in
  let m := BlockCopy output input m in
  g <- match key with
       | Some k => KeyExpansion_at (Globals (RoundKey g) (Some k) (Iv g)) m
       | None => Done g
       end ;;
  let g := match iv with
           | Some v => Globals (RoundKey g) (Key g) (Some v)
           | None => g
           end in
  st <- cbc_encrypt_loop (loop_fuel length) 0 length input output g m ;;
  let '(input, output, g, m) := st in
  if negb (remainders =? 0) then
    let m := BlockCopy output input m in
    let m := memset (padd output (Z.to_nat remainders)) 0 (KEYLEN - Z.to_nat remainders) m in
    let m := Cipher_at output g m in
    Done (g, m)
  else Done (g, m).

Definition AES128_CBC_decrypt_buffer (output input : ptr) (length : Z)
  (key iv : option ptr) (g : globals) (m : mem) : outcome (globals * mem) :=
  let remainders := u8 (length mod Z.of_nat KEYLEN) in
  let m := BlockCopy output input m in
  g <- match key with
       | Some k => KeyExpansion_at (Globals (RoundKey g) (Some k) (Iv g)) m
       | None => Done g
       end ;;
  let g := match iv with
           | Some v => Globals (RoundKey g) (Key g) (Some v)
           | None => g
           end in
  st <- cbc_decrypt_loop (loop_fuel length) 0 length input output g m ;;
  let '(input, output, g, m) := st in
  if negb (remainders =? 0) then
    let m := BlockCopy output input m in
    let m := memset (padd output (Z.to_nat remainders)) 0 (KEYLEN - Z.to_nat remainders) m in
    let m := InvCipher_at output g m in
    Done (g, m)
  else Done (g, m).

(** ** Definitions used to state and check the properties *)

(** The cipher of FIPS-197 without a mask, built from the table S-box
    [SubBytes] and the transforms above; the masked [Cipher] is compared
    with it. *)
Definition Cipher_plain (RoundKey : list Z) (state : state_t) : state_t :=
  let state := AddRoundKey RoundKey state 0 in
  let state :=
    for_range 1 Nr (fun round state =>
      let state := SubBytes state state in
      let state := ShiftRows state in
      let state := MixColumns state in
      let state := AddRoundKey RoundKey state round in
      state) state in
  let state := SubBytes state state in
  let state := ShiftRows state in
  let state := AddRoundKey RoundKey state Nr in
  state.

(** The 256 values of a [uint8_t]. *)
Definition all_bytes : list Z := map Z.of_nat (seq 0 256).

Definition bytes (l : list Z) : Prop := Forall byte l.

(** A [state_t] holds sixteen bytes. *)
Definition is_state (s : list Z) : Prop := length s = 16%nat /\ bytes s.

(** The two signals that stage 5 combines on lane [k]: lane [U_k] is built
    from [L_a] and [L_b] where [(a, b)] is entry [k]. *)
Definition lane_taps : list (nat * nat) :=
  [(6, 23); (13, 27); (25, 29); (20, 22); (6, 21); (19, 28); (16, 26); (6, 24)]%nat.

(** The plain XOR of the two signals of lane [k]. *)
Definition lane_xor (L : list Z) (k : nat) : Z :=
  let ab := nth k lane_taps (0, 0)%nat in
  nth (fst ab) L 0 .^ nth (snd ab) L 0.

(** Lane [k] of the value output is the complement of the XOR of its two
    signals, whatever the signals are. *)
Definition value_complemented (k : nat) : Prop :=
  forall L : list Z, nth k (output_value L) 0 = not8 (lane_xor L k).

(** Lane [k] of the value output is the plain XOR of its two signals. *)
Definition value_plain (k : nat) : Prop :=
  forall L : list Z, nth k (output_value L) 0 = lane_xor L k.

(** Lane [k] of the mask output is the complement, resp. the plain XOR, of
    its two mask signals. *)
Definition mask_complemented (k : nat) : Prop :=
  forall Lm : list Z, nth k (output_mask Lm) 0 = not8 (lane_xor Lm k).

Definition mask_plain (k : nat) : Prop :=
  forall Lm : list Z, nth k (output_mask Lm) 0 = lane_xor Lm k.

(** ** The key schedule *)
(** Two arrays of the same length agree on their first [n] entries. *)
Definition agree (n : nat) (l l' : list Z) : Prop :=
  length l = length l' /\ forall k, (k < n)%nat -> nth k l 0 = nth k l' 0.

(** ** Memory *)
Definition cell (m : mem) (r j : nat) : Z := nth j (region m r) 0.
Definition size (m : mem) (r : nat) : nat := length (region m r).

(** [m'] is [m] except inside the [n] bytes at [p]. *)
Definition same_outside (p : ptr) (n : nat) (m m' : mem) : Prop :=
  (forall r, size m' r = size m r) /\
  (forall r j, ~ (r = base p /\ (off p <= j < off p + n)%nat) -> cell m' r j = cell m r j).

(** The round keys of a 16-byte key. *)
Notation round_keys K := (KeyExpansion (fun i => nth i K 0) (repeat 0 176)).

(** The bytewise XOR of two blocks of sixteen bytes. *)
Definition xor_block (a b : list Z) : list Z :=
  map (fun i => nth i a 0 .^ nth i b 0) (seq 0 16).

(** The first ECB vector of SP 800-38A. *)
Definition tv_key : list Z :=
  [0x2b; 0x7e; 0x15; 0x16; 0x28; 0xae; 0xd2; 0xa6; 0xab; 0xf7; 0x15; 0x88; 0x09; 0xcf; 0x4f; 0x3c].

Definition tv_plain : list Z :=
  [0x6b; 0xc1; 0xbe; 0xe2; 0x2e; 0x40; 0x9f; 0x96; 0xe9; 0x3d; 0x7e; 0x11; 0x73; 0x93; 0x17; 0x2a].

Definition tv_cipher : list Z :=
  [0x3a; 0xd7; 0x7b; 0xb4; 0x0d; 0x7a; 0x36; 0x60; 0xa8; 0x9e; 0xca; 0xf3; 0x24; 0x66; 0xef; 0x97].

(** A memory of four buffers (plaintext, key and two 16-byte outputs) and
    the file-scope variables as they are when the program starts. *)
Definition tv_mem : mem := [tv_plain; tv_key; repeat 0 16; repeat 0 16].

Definition tv_globals : globals := Globals (repeat 0 176) None None.

(** Byte [j] of region [r] is one of the [n] bytes at [p]. *)
Definition in_block (p : ptr) (n : nat) (r j : nat) : Prop :=
  r = base p /\ (off p <= j < off p + n)%nat.

(** [m'] is [m] except on the bytes of the footprint [F]. *)
Definition same_except (F : nat -> nat -> Prop) (m m' : mem) : Prop :=
  (forall r, size m' r = size m r) /\
  (forall r j, ~ F r j -> cell m' r j = cell m r j).

(** The chaining block in effect for block [k] of a CBC encryption: the
    supplied IV for block 0, the previous block of [output] after that. *)
Definition chain_iv (m' : mem) (output : ptr) (iv0 : list Z) (k : nat) : list Z :=
  match k with
  | O => iv0
  | S k' => read m' (padd output (16 * k')) 16
  end.

(** The first two CBC blocks of SP 800-38A: plaintext, output buffer, key,
    IV and a second output buffer. *)
Definition cbc_plain : list Z :=
  [0x6b; 0xc1; 0xbe; 0xe2; 0x2e; 0x40; 0x9f; 0x96; 0xe9; 0x3d; 0x7e; 0x11; 0x73; 0x93; 0x17; 0x2a;
   0xae; 0x2d; 0x8a; 0x57; 0x1e; 0x03; 0xac; 0x9c; 0x9e; 0xb7; 0x6f; 0xac; 0x45; 0xaf; 0x8e; 0x51].

Definition cbc_iv : list Z :=
  [0x00; 0x01; 0x02; 0x03; 0x04; 0x05; 0x06; 0x07; 0x08; 0x09; 0x0a; 0x0b; 0x0c; 0x0d; 0x0e; 0x0f].

Definition cbc_mem : mem := [cbc_plain; repeat 0 32; tv_key; cbc_iv; repeat 0 32].

(** A call with [length = 20]: the twenty bytes of data are the bytes
    1 to 20 of a 48-byte input buffer (the bytes after them are 21 to 48),
    and the output buffer has 48 bytes. *)
Definition tail_mem : mem :=
  [map Z.of_nat (seq 1 48); repeat 0 48; tv_key; cbc_iv].

(** * Properties *)

(** ** Bytes and bitwise operations *)

(** Equalities between expressions built from XOR, AND and complement are
    settled bit by bit. *)
Ltac bitwise :=
  apply Z.bits_inj'; intros ?n ?Hn;
  repeat (rewrite ?Z.lxor_spec, ?Z.land_spec, ?Z.lor_spec, ?Z.lnot_spec, ?Z.bits_0 by lia);
  btauto.

Lemma byte_in_all_bytes (x : Z) : byte x -> In x all_bytes.
Proof.
  intros [Hlo Hhi]. unfold all_bytes. apply in_map_iff.
  exists (Z.to_nat x). split; [lia | apply in_seq; lia].
Qed.

Lemma byte_u8 (x : Z) : byte (u8 x).
Proof.
  unfold byte, u8. change 255 with (Z.ones 8).
  rewrite Z.land_ones by lia. pose proof (Z.mod_pos_bound x (2 ^ 8)). lia.
Qed.

Lemma u8_byte (x : Z) : byte x -> u8 x = x.
Proof.
  intros H. unfold u8. change 255 with (Z.ones 8).
  rewrite Z.land_ones by lia. apply Z.mod_small. exact H.
Qed.

Lemma byte_lxor (x y : Z) : byte x -> byte y -> byte (x .^ y).
Proof.
  intros Hx Hy. rewrite <- (u8_byte x Hx), <- (u8_byte y Hy).
  replace (u8 x .^ u8 y) with (u8 (x .^ y)) by (unfold u8; bitwise).
  apply byte_u8.
Qed.

(** ** The masked AND gadget *)

(** C3: for all inputs of [_SAND] the XOR of the two outputs [z] and [m] is
    the bitwise AND of [p1 XOR p2] and [q1 XOR q2]. *)
Theorem SAND_unmasked_and (p1 p2 q1 q2 : Z) :
  fst (_SAND p1 p2 q1 q2) .^ snd (_SAND p1 p2 q1 q2) = (p1 .^ p2) .& (q1 .^ q2).
Proof.
  unfold _SAND. cbn [fst snd]. bitwise.
Qed.

Lemma SAND_bytes (p1 p2 q1 q2 : Z) :
  byte p1 -> byte p2 -> byte q1 -> byte q2 ->
  byte (fst (_SAND p1 p2 q1 q2)) /\ byte (snd (_SAND p1 p2 q1 q2)).
Proof.
  intros H1 H2 H3 H4.
  assert (Hand : forall a b, byte a -> byte b -> byte (a .& b)).
  { intros a b Ha Hb. rewrite <- (u8_byte b Hb). unfold u8.
    rewrite Z.land_assoc. apply byte_u8. }
  assert (Hff : byte 0xff) by (unfold byte; lia).
  unfold _SAND. cbn [fst snd]. split; repeat apply byte_lxor; auto.
Qed.

(** ** The masked S-box *)

Lemma sboxm_exhaustive :
  forallb (fun num => forallb (fun numm =>
    (fun r => fst r .^ snd r =? nth (Z.to_nat (num .^ numm)) sbox 0)
      (getSBoxValuem num numm)) all_bytes) all_bytes = true.
Proof. vm_compute. reflexivity. Qed.

Lemma getSBoxValuem_correct (num numm : Z) :
  byte num -> byte numm ->
  fst (getSBoxValuem num numm) .^ snd (getSBoxValuem num numm)
  = getSBoxValue (num .^ numm).
Proof.
  intros Hn Hm. pose proof sboxm_exhaustive as H.
  rewrite forallb_forall in H. specialize (H num (byte_in_all_bytes num Hn)).
  rewrite forallb_forall in H. specialize (H numm (byte_in_all_bytes numm Hm)).
  apply Z.eqb_eq. exact H.
Qed.

(** C1: for every byte [num] and every mask byte [num_m], the byte [t] that
    [getSBoxValuem] returns and the mask byte [tm] that it writes back
    satisfy [t XOR tm = sbox[num XOR num_m]]. *)
Theorem getSBoxValuem_unmasks_to_sbox (num num_m : Z) :
  byte num -> byte num_m ->
  fst (getSBoxValuem num num_m) .^ snd (getSBoxValuem num num_m)
  = nth (Z.to_nat (num .^ num_m)) sbox 0.
Proof.
  intros Hn Hm. exact (getSBoxValuem_correct num num_m Hn Hm).
Qed.

Lemma getSBoxValuem_unmasks_to_sbox_witness :
  byte 0x53 /\ byte 0xa7 /\
  fst (getSBoxValuem 0x53 0xa7) .^ snd (getSBoxValuem 0x53 0xa7)
  = nth (Z.to_nat (0x53 .^ 0xa7)) sbox 0.
Proof.
  assert (H1 : byte 0x53) by (unfold byte; lia).
  assert (H2 : byte 0xa7) by (unfold byte; lia).
  split; [exact H1 | split; [exact H2 |]].
  exact (getSBoxValuem_unmasks_to_sbox 0x53 0xa7 H1 H2).
Defined.

Lemma getSBoxValuem_bytes (num numm : Z) :
  byte (fst (getSBoxValuem num numm)) /\ byte (snd (getSBoxValuem num numm)).
Proof.
  unfold getSBoxValuem. destruct (sbox_layers num numm) as [L Lm].
  cbn [fst snd]. unfold repack. split; apply byte_u8.
Qed.

(** ** Stage 5 of the masked S-box *)

Lemma value_complemented_iff (k : nat) :
  value_complemented k <-> In k [0; 1; 5; 6]%nat.
Proof.
  split.
  - intros H. specialize (H (repeat 0 30)).
    do 8 (destruct k as [|k]; [first [ now (cbn; auto) | vm_compute in H; discriminate H ] |]).
    vm_compute in H. destruct k; discriminate H.
  - intros H. cbn in H.
    destruct H as [<- | [<- | [<- | [<- | []]]]]; intros L; reflexivity.
Qed.

Lemma value_plain_other (k : nat) :
  In k [2; 3; 4; 7]%nat -> value_plain k.
Proof.
  intros H. cbn in H.
  destruct H as [<- | [<- | [<- | [<- | []]]]]; intros L; reflexivity.
Qed.

Lemma mask_plain_all (k : nat) : mask_plain k.
Proof.
  intros Lm.
  do 8 (destruct k as [|k]; [reflexivity |]).
  unfold lane_xor.
  replace (nth (S (S (S (S (S (S (S (S k)))))))) lane_taps (0, 0)%nat) with (0, 0)%nat
    by (destruct k; reflexivity).
  cbn [fst snd]. rewrite Z.lxor_nilpotent. destruct k; reflexivity.
Qed.

Lemma mask_complemented_none (k : nat) : ~ mask_complemented k.
Proof.
  intros H. specialize (H (repeat 0 30)). rewrite mask_plain_all in H.
  unfold lane_xor in H.
  assert (E : forall i, nth i (repeat 0 30) 0 = 0).
  { intros i. apply nth_repeat. }
  rewrite !E in H. vm_compute in H. discriminate H.
Qed.

(** C7, as stated: exactly five of the eight output lanes have a complement
    on the value lane.  There is no set of five lanes that is the set of
    complemented value lanes. *)
Lemma stage5_not_five_complements :
  ~ (exists ks : list nat,
       NoDup ks /\ length ks = 5%nat /\
       forall k, In k ks <-> (k < 8)%nat /\ value_complemented k).
Proof.
  intros [ks [Hnd [Hlen Hks]]].
  assert (Hperm : Permutation ks [0; 1; 5; 6]%nat).
  { apply NoDup_Permutation; [exact Hnd | |].
    - repeat constructor; cbn; lia.
    - intros k. rewrite Hks, value_complemented_iff. cbn. lia. }
  apply Permutation_length in Hperm. cbn in Hperm. lia.
Qed.

(** C7, amended: stage 5 complements the value lane on exactly four of the
    eight lanes, [U_0], [U_1], [U_5] and [U_6]; on the other four the value
    lane is the plain XOR of its two L-signals; no mask lane is
    complemented, every mask lane being the plain XOR of the matching mask
    signals. *)
Theorem stage5_four_complements :
  (forall k, value_complemented k <-> In k [0; 1; 5; 6]%nat) /\
  (forall k, In k [2; 3; 4; 7]%nat -> value_plain k) /\
  (forall k, mask_plain k /\ ~ mask_complemented k) /\
  length (filter (fun k => nth k (output_value (repeat 0 30)) 0 =? 0xff) (seq 0 8)) = 4%nat.
Proof.
  split; [exact value_complemented_iff |].
  split; [exact value_plain_other |].
  split; [intros k; split; [apply mask_plain_all | apply mask_complemented_none] |].
  reflexivity.
Qed.

(** ** Tables hold bytes *)

Lemma bytes_forallb (l : list Z) :
  forallb (fun x => (0 <=? x) && (x <? 256)) l = true -> bytes l.
Proof.
  intros H. apply Forall_forall. intros x Hx.
  rewrite forallb_forall in H. specialize (H x Hx).
  apply andb_prop in H. destruct H as [H1 H2]. unfold byte. lia.
Qed.

Lemma byte_nth (l : list Z) (i : nat) : bytes l -> byte (nth i l 0).
Proof.
  intros H. destruct (Nat.lt_ge_cases i (length l)) as [Hi | Hi].
  - apply (proj1 (Forall_forall byte l) H). apply nth_In. exact Hi.
  - rewrite nth_overflow by exact Hi. unfold byte. lia.
Qed.

Lemma bytes_upd (l : list Z) (i : nat) (v : Z) :
  bytes l -> byte v -> bytes (upd i v l).
Proof.
  intros Hl Hv. revert i. induction Hl as [| x l Hx Hl IH]; intros i.
  - destruct i; constructor.
  - destruct i as [| i]; cbn; constructor; auto. apply IH.
Qed.

Lemma length_upd {A : Type} (l : list A) (i : nat) (v : A) :
  length (upd i v l) = length l.
Proof.
  revert i. induction l as [| x l IH]; intros i.
  - destruct i; reflexivity.
  - destruct i as [| i]; cbn; [reflexivity | now rewrite IH].
Qed.

Lemma bytes_sbox : bytes sbox.
Proof. apply bytes_forallb. vm_compute. reflexivity. Qed.

Lemma bytes_rsbox : bytes rsbox.
Proof. apply bytes_forallb. vm_compute. reflexivity. Qed.

Lemma bytes_Rcon : bytes Rcon.
Proof. apply bytes_forallb. vm_compute. reflexivity. Qed.

Lemma bytes_rng : bytes rng.
Proof. apply bytes_forallb. vm_compute. reflexivity. Qed.

Lemma byte_getSBoxValue (x : Z) : byte (getSBoxValue x).
Proof. apply byte_nth, bytes_sbox. Qed.

Lemma byte_getSBoxInvert (x : Z) : byte (getSBoxInvert x).
Proof. apply byte_nth, bytes_rsbox. Qed.

Lemma rsbox_sbox_exhaustive :
  forallb (fun x => getSBoxInvert (getSBoxValue x) =? x) all_bytes = true.
Proof. vm_compute. reflexivity. Qed.

Lemma getSBoxInvert_getSBoxValue (x : Z) :
  byte x -> getSBoxInvert (getSBoxValue x) = x.
Proof.
  intros Hx. pose proof rsbox_sbox_exhaustive as H.
  rewrite forallb_forall in H. apply Z.eqb_eq. apply H.
  apply byte_in_all_bytes. exact Hx.
Qed.

(** ** GF(2^8) doubling is linear *)

Lemma top_bit (x : Z) : (x >> 7) .& 1 = Z.b2z (Z.testbit x 7).
Proof.
  change 1 with (Z.ones 1). rewrite Z.land_ones by lia.
  rewrite Z.shiftr_div_pow2 by lia. rewrite Z.testbit_spec' by lia. reflexivity.
Qed.

Lemma byte_xtime (x : Z) : byte (xtime x).
Proof. apply byte_u8. Qed.

Lemma xtime_lxor (x y : Z) : xtime (x .^ y) = xtime x .^ xtime y.
Proof.
  unfold xtime, u8. rewrite !top_bit, Z.lxor_spec, Z.shiftl_lxor.
  destruct (Z.testbit x 7), (Z.testbit y 7); cbn [xorb Z.b2z];
    rewrite ?Z.mul_1_l, ?Z.mul_0_l, ?Z.lxor_0_r; bitwise.
Qed.

Lemma Multiply_09 (x : Z) : Multiply x 0x09 = x .^ xtime (xtime (xtime x)).
Proof.
  unfold Multiply.
  replace (0x09 .& 1) with 1 by reflexivity.
  replace ((0x09 >> 1) .& 1) with 0 by reflexivity.
  replace ((0x09 >> 2) .& 1) with 0 by reflexivity.
  replace ((0x09 >> 3) .& 1) with 1 by reflexivity.
  replace ((0x09 >> 4) .& 1) with 0 by reflexivity.
  rewrite !Z.mul_1_l, !Z.mul_0_l, !Z.lxor_0_r. reflexivity.
Qed.

Lemma Multiply_0b (x : Z) :
  Multiply x 0x0b = x .^ xtime x .^ xtime (xtime (xtime x)).
Proof.
  unfold Multiply.
  replace (0x0b .& 1) with 1 by reflexivity.
  replace ((0x0b >> 1) .& 1) with 1 by reflexivity.
  replace ((0x0b >> 2) .& 1) with 0 by reflexivity.
  replace ((0x0b >> 3) .& 1) with 1 by reflexivity.
  replace ((0x0b >> 4) .& 1) with 0 by reflexivity.
  rewrite !Z.mul_1_l, !Z.mul_0_l, !Z.lxor_0_r. reflexivity.
Qed.

Lemma Multiply_0d (x : Z) :
  Multiply x 0x0d = x .^ xtime (xtime x) .^ xtime (xtime (xtime x)).
Proof.
  unfold Multiply.
  replace (0x0d .& 1) with 1 by reflexivity.
  replace ((0x0d >> 1) .& 1) with 0 by reflexivity.
  replace ((0x0d >> 2) .& 1) with 1 by reflexivity.
  replace ((0x0d >> 3) .& 1) with 1 by reflexivity.
  replace ((0x0d >> 4) .& 1) with 0 by reflexivity.
  rewrite !Z.mul_1_l, !Z.mul_0_l, !Z.lxor_0_r. reflexivity.
Qed.

Lemma Multiply_0e (x : Z) :
  Multiply x 0x0e = xtime x .^ xtime (xtime x) .^ xtime (xtime (xtime x)).
Proof.
  unfold Multiply.
  replace (0x0e .& 1) with 0 by reflexivity.
  replace ((0x0e >> 1) .& 1) with 1 by reflexivity.
  replace ((0x0e >> 2) .& 1) with 1 by reflexivity.
  replace ((0x0e >> 3) .& 1) with 1 by reflexivity.
  replace ((0x0e >> 4) .& 1) with 0 by reflexivity.
  rewrite !Z.mul_1_l, !Z.mul_0_l, !Z.lxor_0_r. reflexivity.
Qed.

Lemma byte_bit_mul (z x : Z) : byte x -> byte ((z .& 1) * x).
Proof.
  intros Hx. change 1 with (Z.ones 1) at 1. rewrite Z.land_ones by lia.
  pose proof (Z.mod_pos_bound z (2 ^ 1)) as Hz.
  assert (Hc : z mod 2 ^ 1 = 0 \/ z mod 2 ^ 1 = 1) by lia.
  destruct Hc as [-> | ->]; [rewrite Z.mul_0_l; unfold byte; lia | now rewrite Z.mul_1_l].
Qed.

Lemma byte_Multiply (x y : Z) : byte x -> byte (Multiply x y).
Proof.
  intros Hx. unfold Multiply.
  repeat apply byte_lxor; apply byte_bit_mul; auto using byte_xtime.
Qed.

(** ** Round transforms on a state of sixteen bytes *)

Ltac list16 s Hlen :=
  do 16 (destruct s as [| ?b s]; [discriminate Hlen |]);
  destruct s; [clear Hlen | discriminate Hlen].

Ltac inv_bytes :=
  repeat match goal with
         | H : is_state _ |- _ => destruct H as [? ?]
         | H : bytes _ |- _ => unfold bytes in H
         | H : Forall byte (_ :: _) |- _ => inversion H; clear H; subst
         | H : Forall byte [] |- _ => clear H
         end.

Ltac state_cbn :=
  cbn [for_range for_down fold_left seq rev app sset sget upd nth Nat.add Nat.mul Nat.sub
       Nb Nk Nr KEYLEN fst snd xor_mask AddRoundKey SubBytesm SubBytes ShiftRows MixColumns
       InvMixColumns InvSubBytes InvShiftRows].

(** The same by [cbv], for the transforms that read nothing but the state. *)
Ltac state_cbv :=
  cbv [for_range for_down fold_left seq rev app sset sget upd nth Nat.add Nat.mul Nat.sub
       Nb Nk Nr KEYLEN fst snd xor_mask SubBytesm SubBytes ShiftRows MixColumns
       InvMixColumns InvSubBytes InvShiftRows].

Create HintDb bytes.
#[local] Hint Resolve byte_lxor byte_u8 byte_xtime byte_getSBoxValue byte_getSBoxInvert
  byte_Multiply byte_nth bytes_sbox bytes_rsbox bytes_Rcon bytes_rng : bytes.

(** After [state_cbn] a state is an explicit list of sixteen expressions. *)
Ltac is_state_done :=
  split;
  [ reflexivity
  | unfold bytes;
    repeat first [apply Forall_nil | apply Forall_cons; [auto 6 with bytes |]] ].

Lemma cons_eq {A : Type} (a b : A) (l l' : list A) :
  a = b -> l = l' -> a :: l = b :: l'.
Proof. intros -> ->. reflexivity. Qed.

Ltac each_entry tac := repeat (apply cons_eq; [tac |]); try reflexivity.

Lemma is_state_xor_mask (s m : state_t) :
  is_state s -> is_state m -> is_state (xor_mask s m).
Proof.
  intros [Hs Bs] [Hm Bm]. list16 s Hs. list16 m Hm. inv_bytes. state_cbv.
  is_state_done.
Qed.

Lemma is_state_AddRoundKey (rk : list Z) (s : state_t) (r : nat) :
  bytes rk -> is_state s -> is_state (AddRoundKey rk s r).
Proof.
  intros Hrk [Hs Bs]. list16 s Hs. inv_bytes. state_cbn. is_state_done.
Qed.

Lemma is_state_SubBytes (s d : state_t) : is_state s -> is_state (SubBytes s d).
Proof.
  intros [Hs Bs]. list16 s Hs. inv_bytes. state_cbv. is_state_done.
Qed.

Lemma byte_getSBoxValuem_fst (num numm : Z) : byte (fst (getSBoxValuem num numm)).
Proof. exact (proj1 (getSBoxValuem_bytes num numm)). Qed.

Lemma byte_getSBoxValuem_snd (num numm : Z) : byte (snd (getSBoxValuem num numm)).
Proof. exact (proj2 (getSBoxValuem_bytes num numm)). Qed.

Lemma is_state_SubBytesm (s m : state_t) :
  is_state s -> is_state m ->
  is_state (fst (SubBytesm s m)) /\ is_state (snd (SubBytesm s m)).
Proof.
  intros [Hs Bs] [Hm Bm]. list16 s Hs. list16 m Hm. inv_bytes. state_cbn.
  split; (split; [reflexivity | unfold bytes]).
  - repeat first [apply Forall_nil | apply Forall_cons; [exact (byte_getSBoxValuem_fst _ _) |]].
  - repeat first [apply Forall_nil | apply Forall_cons; [exact (byte_getSBoxValuem_snd _ _) |]].
Qed.

Lemma is_state_ShiftRows (s : state_t) : is_state s -> is_state (ShiftRows s).
Proof.
  intros [Hs Bs]. list16 s Hs. inv_bytes. state_cbv. is_state_done.
Qed.

Lemma is_state_MixColumns (s : state_t) : is_state s -> is_state (MixColumns s).
Proof.
  intros [Hs Bs]. list16 s Hs. inv_bytes. state_cbv. is_state_done.
Qed.

Lemma is_state_InvShiftRows (s : state_t) : is_state s -> is_state (InvShiftRows s).
Proof.
  intros [Hs Bs]. list16 s Hs. inv_bytes. state_cbv. is_state_done.
Qed.

Lemma is_state_InvSubBytes (s : state_t) : is_state s -> is_state (InvSubBytes s).
Proof.
  intros [Hs Bs]. list16 s Hs. inv_bytes. state_cbv. is_state_done.
Qed.

Lemma is_state_InvMixColumns (s : state_t) : is_state s -> is_state (InvMixColumns s).
Proof.
  intros [Hs Bs]. list16 s Hs. inv_bytes. state_cbv. is_state_done.
Qed.

(** *** Each inverse transform undoes its forward transform *)

Lemma AddRoundKey_involutive (rk : list Z) (s : state_t) (r : nat) :
  length s = 16%nat -> AddRoundKey rk (AddRoundKey rk s r) r = s.
Proof.
  intros Hs. list16 s Hs. state_cbn. each_entry bitwise.
Qed.

Lemma InvShiftRows_ShiftRows (s : state_t) :
  length s = 16%nat -> InvShiftRows (ShiftRows s) = s.
Proof. intros Hs. list16 s Hs. reflexivity. Qed.

Lemma InvSubBytes_SubBytes (s d : state_t) :
  is_state s -> InvSubBytes (SubBytes s d) = s.
Proof.
  intros [Hs Bs]. list16 s Hs. inv_bytes. state_cbv.
  each_entry ltac:(now apply getSBoxInvert_getSBoxValue).
Qed.

Lemma InvMixColumns_MixColumns (s : state_t) :
  length s = 16%nat -> InvMixColumns (MixColumns s) = s.
Proof.
  intros Hs. list16 s Hs. state_cbv.
  rewrite !Multiply_09, !Multiply_0b, !Multiply_0d, !Multiply_0e.
  rewrite !xtime_lxor.
  each_entry bitwise.
Qed.

(** *** The linear transforms commute with the mask *)

Lemma xor_mask_involutive (s m : state_t) :
  length s = 16%nat -> length m = 16%nat -> xor_mask (xor_mask s m) m = s.
Proof.
  intros Hs Hm. list16 s Hs. list16 m Hm. state_cbv. each_entry bitwise.
Qed.

Lemma AddRoundKey_masked (rk : list Z) (s m : state_t) (r : nat) :
  length s = 16%nat -> length m = 16%nat ->
  xor_mask (AddRoundKey rk s r) m = AddRoundKey rk (xor_mask s m) r.
Proof.
  intros Hs Hm. list16 s Hs. list16 m Hm. state_cbn. each_entry bitwise.
Qed.

Lemma ShiftRows_masked (s m : state_t) :
  length s = 16%nat -> length m = 16%nat ->
  xor_mask (ShiftRows s) (ShiftRows m) = ShiftRows (xor_mask s m).
Proof.
  intros Hs Hm. list16 s Hs. list16 m Hm. reflexivity.
Qed.

Lemma MixColumns_masked (s m : state_t) :
  length s = 16%nat -> length m = 16%nat ->
  xor_mask (MixColumns s) (MixColumns m) = MixColumns (xor_mask s m).
Proof.
  intros Hs Hm. list16 s Hs. list16 m Hm. state_cbv.
  rewrite !xtime_lxor. each_entry bitwise.
Qed.

Lemma SubBytesm_masked (s m d : state_t) :
  is_state s -> is_state m ->
  xor_mask (fst (SubBytesm s m)) (snd (SubBytesm s m)) = SubBytes (xor_mask s m) d.
Proof.
  intros [Hs Bs] [Hm Bm]. list16 s Hs. list16 m Hm. inv_bytes. state_cbn.
  unfold getSBoxValue. each_entry ltac:(now apply getSBoxValuem_correct).
Qed.

(** ** The masked cipher computes the plain cipher *)

Lemma is_state_length (s : state_t) : is_state s -> length s = 16%nat.
Proof. intros [H _]. exact H. Qed.

Create HintDb states.
#[local] Hint Resolve is_state_length is_state_xor_mask is_state_AddRoundKey
  is_state_SubBytes is_state_ShiftRows is_state_MixColumns is_state_InvShiftRows
  is_state_InvSubBytes is_state_InvMixColumns : states.

Lemma fold_left_nil {A B : Type} (f : A -> B -> A) (a : A) :
  fold_left f [] a = a.
Proof. reflexivity. Qed.

Lemma fold_left_cons {A B : Type} (f : A -> B -> A) (x : B) (l : list B) (a : A) :
  fold_left f (x :: l) a = fold_left f l (f a x).
Proof. reflexivity. Qed.

(** One round of the masked loop is one round of the plain loop on the
    unmasked state. *)
Lemma masked_step (rk : list Z) (r : nat) (s m : state_t) :
  bytes rk -> is_state s -> is_state m ->
  is_state (AddRoundKey rk (MixColumns (ShiftRows (fst (SubBytesm s m)))) r) /\
  is_state (MixColumns (ShiftRows (snd (SubBytesm s m)))) /\
  xor_mask (AddRoundKey rk (MixColumns (ShiftRows (fst (SubBytesm s m)))) r)
           (MixColumns (ShiftRows (snd (SubBytesm s m))))
  = AddRoundKey rk (MixColumns (ShiftRows (SubBytes (xor_mask s m) (xor_mask s m)))) r.
Proof.
  intros Hrk Hs Hm.
  destruct (is_state_SubBytesm s m Hs Hm) as [Hs1 Hm1].
  split; [auto with states | split; [auto with states |]].
  rewrite AddRoundKey_masked by auto with states.
  rewrite MixColumns_masked by auto with states.
  rewrite ShiftRows_masked by auto with states.
  rewrite (SubBytesm_masked s m (xor_mask s m)) by assumption.
  reflexivity.
Qed.

Lemma masked_rounds (rk : list Z) (rounds : list nat) :
  bytes rk ->
  forall s m : state_t, is_state s -> is_state m ->
  let st :=
    fold_left (fun st round =>
      let st := SubBytesm (fst st) (snd st) in
      let state := ShiftRows (fst st) in
      let statem := ShiftRows (snd st) in
      let state := MixColumns state in
      let statem := MixColumns statem in
      let state := AddRoundKey rk state round in
      (state, statem)) rounds (s, m) in
  is_state (fst st) /\ is_state (snd st) /\
  xor_mask (fst st) (snd st)
  = fold_left (fun state round =>
      let state := SubBytes state state in
      let state := ShiftRows state in
      let state := MixColumns state in
      let state := AddRoundKey rk state round in
      state) rounds (xor_mask s m).
Proof.
  intros Hrk. induction rounds as [| r rounds IH]; intros s m Hs Hm.
  - rewrite !fold_left_nil. cbv zeta. cbn [fst snd]. auto.
  - destruct (masked_step rk r s m Hrk Hs Hm) as [Hs2 [Hm2 E]].
    specialize (IH _ _ Hs2 Hm2).
    rewrite !fold_left_cons. cbv beta zeta. cbn [fst snd].
    rewrite <- E. exact IH.
Qed.

Lemma Cipher_seeded_plain (seed rk : list Z) (s : state_t) :
  bytes rk -> is_state seed -> is_state s ->
  Cipher_seeded seed rk s = Cipher_plain rk s.
Proof.
  intros Hrk Hseed Hs. unfold Cipher_seeded, Cipher_plain, for_range. cbv zeta.
  assert (H0 : is_state (AddRoundKey rk (xor_mask s seed) 0)) by auto with states.
  destruct (masked_rounds rk (seq 1 (Nr - 1)) Hrk _ _ H0 Hseed) as [H1 [H2 H3]].
  cbv zeta in H1, H2, H3.
  destruct (is_state_SubBytesm _ _ H1 H2) as [H4 H5].
  rewrite AddRoundKey_masked by auto with states.
  rewrite ShiftRows_masked by auto with states.
  match goal with
  | |- _ = AddRoundKey _ (ShiftRows (SubBytes ?X _)) _ =>
      rewrite (SubBytesm_masked _ _ X) by assumption
  end.
  rewrite H3.
  rewrite AddRoundKey_masked by auto with states.
  rewrite xor_mask_involutive by auto with states.
  reflexivity.
Qed.

Lemma is_state_plain_rounds (rk : list Z) (rounds : list nat) :
  bytes rk ->
  forall s : state_t, is_state s ->
  is_state (fold_left (fun state round =>
      let state := SubBytes state state in
      let state := ShiftRows state in
      let state := MixColumns state in
      let state := AddRoundKey rk state round in
      state) rounds s).
Proof.
  intros Hrk. induction rounds as [| r rounds IH]; intros s Hs.
  - now rewrite fold_left_nil.
  - rewrite fold_left_cons. apply IH. cbv zeta. auto with states.
Qed.

Lemma is_state_Cipher_plain (rk : list Z) (s : state_t) :
  bytes rk -> is_state s -> is_state (Cipher_plain rk s).
Proof.
  intros Hrk Hs. unfold Cipher_plain, for_range. cbv zeta.
  apply is_state_AddRoundKey; [exact Hrk |].
  apply is_state_ShiftRows, is_state_SubBytes.
  apply is_state_plain_rounds; auto with states.
Qed.

(** ** The inverse cipher undoes the plain cipher *)

(** The rounds of the cipher regrouped so that each group is undone by one
    round of the inverse cipher. *)
Lemma plain_rounds_regroup (rk : list Z) (rounds : list nat) (s : state_t) :
  ShiftRows (SubBytes
    (fold_left (fun state round =>
       let state := SubBytes state state in
       let state := ShiftRows state in
       let state := MixColumns state in
       let state := AddRoundKey rk state round in
       state) rounds s)
    (fold_left (fun state round =>
       let state := SubBytes state state in
       let state := ShiftRows state in
       let state := MixColumns state in
       let state := AddRoundKey rk state round in
       state) rounds s))
  = fold_left (fun u round =>
      ShiftRows (SubBytes (AddRoundKey rk (MixColumns u) round)
                          (AddRoundKey rk (MixColumns u) round)))
      rounds (ShiftRows (SubBytes s s)).
Proof.
  revert s. induction rounds as [| r rounds IH]; intros s.
  - now rewrite !fold_left_nil.
  - rewrite !fold_left_cons. cbv zeta. rewrite IH. reflexivity.
Qed.

Lemma inverse_rounds (rk : list Z) (rounds : list nat) :
  bytes rk ->
  forall u : state_t, is_state u ->
  fold_left (fun state round =>
      let state := InvShiftRows state in
      let state := InvSubBytes state in
      let state := AddRoundKey rk state round in
      let state := InvMixColumns state in
      state) (rev rounds)
    (fold_left (fun u round =>
       ShiftRows (SubBytes (AddRoundKey rk (MixColumns u) round)
                           (AddRoundKey rk (MixColumns u) round)))
       rounds u)
  = u.
Proof.
  intros Hrk. induction rounds as [| r rounds IH]; intros u Hu.
  - cbn [rev]. now rewrite !fold_left_nil.
  - replace (rev (r :: rounds)) with (rev rounds ++ [r]) by reflexivity.
    rewrite fold_left_app, !fold_left_cons.
    rewrite fold_left_nil.
    cbv zeta.
    rewrite IH by auto with states.
    rewrite InvShiftRows_ShiftRows by auto with states.
    rewrite InvSubBytes_SubBytes by auto with states.
    rewrite AddRoundKey_involutive by auto with states.
    apply InvMixColumns_MixColumns. auto with states.
Qed.

Lemma InvCipher_Cipher_plain (rk : list Z) (s : state_t) :
  bytes rk -> is_state s -> InvCipher rk (Cipher_plain rk s) = s.
Proof.
  intros Hrk Hs. unfold InvCipher, Cipher_plain, for_range, for_down. cbv zeta.
  assert (H0 : is_state (AddRoundKey rk s 0)) by auto with states.
  pose proof (is_state_plain_rounds rk (seq 1 (Nr - 1)) Hrk _ H0) as H1.
  cbv zeta in H1.
  rewrite AddRoundKey_involutive by auto with states.
  rewrite plain_rounds_regroup.
  change (seq (0 + 1) (Nr - 1 - 0)) with (seq 1 (Nr - 1)).
  rewrite inverse_rounds by auto with states.
  rewrite InvShiftRows_ShiftRows by auto with states.
  rewrite InvSubBytes_SubBytes by auto with states.
  apply AddRoundKey_involutive. auto with states.
Qed.

(** ** Loops *)
Lemma fold_seq_rel {S T : Type} (R : nat -> S -> T -> Prop)
  (body : nat -> S -> S) (body' : nat -> T -> T) (n : nat) :
  forall (lo : nat) (s : S) (t : T),
  R lo s t ->
  (forall i s t, (lo <= i < lo + n)%nat -> R i s t -> R (Datatypes.S i) (body i s) (body' i t)) ->
  R (lo + n)%nat (fold_left (fun s i => body i s) (seq lo n) s)
                 (fold_left (fun t i => body' i t) (seq lo n) t).
Proof.
  induction n as [| n IH]; intros lo s t H0 Hstep.
  - rewrite Nat.add_0_r. exact H0.
  - cbn [seq]. rewrite !fold_left_cons.
    replace (lo + Datatypes.S n)%nat with (Datatypes.S lo + n)%nat by lia.
    apply IH.
    + apply Hstep; [lia | exact H0].
    + intros i s' t' Hi. apply Hstep. lia.
Qed.

(** Two loops over the same range keep a relation that each pair of bodies
    keeps. *)
Lemma for_range_rel {S T : Type} (R : nat -> S -> T -> Prop)
  (body : nat -> S -> S) (body' : nat -> T -> T) (lo hi : nat) (s : S) (t : T) :
  (lo <= hi)%nat ->
  R lo s t ->
  (forall i s t, (lo <= i < hi)%nat -> R i s t -> R (Datatypes.S i) (body i s) (body' i t)) ->
  R hi (for_range lo hi body s) (for_range lo hi body' t).
Proof.
  intros Hle H0 Hstep. unfold for_range.
  replace hi with (lo + (hi - lo))%nat at 1 by lia.
  apply fold_seq_rel; [exact H0 |].
  intros i s' t' Hi. apply Hstep. lia.
Qed.

(** A loop keeps an invariant that its body keeps. *)
Lemma for_range_inv {S : Type} (P : nat -> S -> Prop)
  (body : nat -> S -> S) (lo hi : nat) (s : S) :
  (lo <= hi)%nat ->
  P lo s ->
  (forall i s, (lo <= i < hi)%nat -> P i s -> P (Datatypes.S i) (body i s)) ->
  P hi (for_range lo hi body s).
Proof.
  intros Hle H0 Hstep.
  apply (for_range_rel (fun i s (_ : unit) => P i s) body (fun _ u => u) lo hi s tt Hle H0).
  intros i s' _ Hi. apply Hstep. exact Hi.
Qed.

(** ** Arrays *)
Lemma nth_upd {A : Type} (l : list A) (i j : nat) (v d : A) :
  nth j (upd i v l) d = if (j =? i)%nat && (i <? length l)%nat then v else nth j l d.
Proof.
  revert i j. induction l as [| x l IH]; intros i j.
  - cbn [length]. rewrite andb_false_r. destruct i; reflexivity.
  - destruct i as [| i].
    + destruct j as [| j]; reflexivity.
    + destruct j as [| j]; cbn [upd nth length].
      * reflexivity.
      * rewrite IH. reflexivity.
Qed.

Lemma nth_upd_ne {A : Type} (l : list A) (i j : nat) (v d : A) :
  j <> i -> nth j (upd i v l) d = nth j l d.
Proof.
  intros H. rewrite nth_upd.
  replace (j =? i)%nat with false by (symmetry; apply Nat.eqb_neq; exact H).
  reflexivity.
Qed.

Lemma nth_upd_eq {A : Type} (l : list A) (i : nat) (v d : A) :
  (i < length l)%nat -> nth i (upd i v l) d = v.
Proof.
  intros H. rewrite nth_upd, Nat.eqb_refl.
  replace (i <? length l)%nat with true by (symmetry; apply Nat.ltb_lt; exact H).
  reflexivity.
Qed.

Lemma agree_upd (n k : nat) (v : Z) (l l' : list Z) :
  agree n l l' -> (k < length l)%nat -> (k <= n)%nat ->
  agree (Nat.max n (Datatypes.S k)) (upd k v l) (upd k v l').
Proof.
  intros [Hlen Hag] Hk Hkn. split.
  - now rewrite !length_upd.
  - intros j Hj. rewrite !nth_upd, <- Hlen.
    destruct ((j =? k)%nat && (k <? length l)%nat) eqn:E; [reflexivity |].
    apply Hag. apply andb_false_iff in E.
    destruct E as [E | E]; [apply Nat.eqb_neq in E | apply Nat.ltb_ge in E]; lia.
Qed.

Lemma agree_all (l l' : list Z) : agree (length l) l l' -> l = l'.
Proof.
  intros [Hlen Hag]. apply (nth_ext l l' 0 0 Hlen). exact Hag.
Qed.

Lemma KeyExpansion_length (Key : nat -> Z) (rk : list Z) :
  length (KeyExpansion Key rk) = length rk.
Proof.
  unfold KeyExpansion. cbv zeta.
  match goal with
  | |- length (snd (for_range ?lo ?hi ?body (?t0, ?r0))) = _ =>
      assert (H0 : length r0 = length rk);
      [| apply (for_range_inv (fun _ st => length (snd st) = length rk) body lo hi (t0, r0));
         [unfold Nk, Nb, Nr; lia | exact H0 |] ]
  end.
  - apply (for_range_inv (fun _ r => length r = length rk)); [unfold Nk; lia | reflexivity |].
    intros i r _ Hr. now rewrite !length_upd.
  - intros i [t r] _ Hr. cbn [snd] in *. now rewrite !length_upd.
Qed.

(** Bytes stay bytes through array updates, branches, XOR and table
    lookups. *)
Ltac bytes_tac :=
  repeat match goal with
         | |- bytes (upd _ _ _) => apply bytes_upd
         | |- bytes (if ?c then _ else _) => destruct c
         | |- bytes (for_range 0 4 _ _) => cbn [for_range fold_left seq Nat.sub]
         | |- byte (_ .^ _) => apply byte_lxor
         | |- byte (nth _ _ 0) => apply byte_nth
         | |- byte (getSBoxValue _) => apply byte_getSBoxValue
         | |- bytes Rcon => exact bytes_Rcon
         | |- _ => assumption
         end.

Lemma KeyExpansion_bytes (Key : nat -> Z) (rk : list Z) :
  (forall i, byte (Key i)) -> bytes rk -> bytes (KeyExpansion Key rk).
Proof.
  intros HK Hrk. unfold KeyExpansion. cbv zeta.
  match goal with
  | |- bytes (snd (for_range ?lo ?hi ?body (?t0, ?r0))) =>
      assert (H0 : bytes r0);
      [| apply (for_range_inv (fun _ st => bytes (fst st) /\ bytes (snd st))
                  body lo hi (t0, r0));
         [unfold Nk, Nb, Nr; lia | split; [| exact H0] |] ]
  end.
  - apply (for_range_inv (fun _ r => bytes r)); [unfold Nk; lia | exact Hrk |].
    intros i r _ Hr. repeat apply bytes_upd; auto.
  - cbn [fst]. unfold bytes. repeat constructor; unfold byte; lia.
  - intros i [t r] _ [Ht Hr]. cbn [fst snd] in *. split; bytes_tac.
Qed.

(** One [let] whose value is a variable is replaced by its body. *)
Ltac zeta_var :=
  match goal with
  | |- context G [let x := ?v in @?b x] =>
      is_var v; let g := context G [b v] in change g; cbv beta
  end.

Lemma KeyExpansion_init (Key : nat -> Z) (rk rk' : list Z) :
  length rk = 176%nat -> length rk' = 176%nat ->
  KeyExpansion Key rk = KeyExpansion Key rk'.
Proof.
  intros Hl Hl'. cbv beta delta [KeyExpansion].
  match goal with
  | |- (let x := ?v in @?b x) = (let y := ?v' in @?b' y) =>
      assert (H0 : agree (4 * Nk) v v' /\ length v = 176%nat);
      [| set (r0 := v) in *; set (r0' := v') in *; clearbody r0 r0'; repeat zeta_var ]
  end.
  - apply (for_range_rel (fun i r r' => agree (4 * i) r r' /\ length r = 176%nat)).
    + unfold Nk. lia.
    + split; [split; [congruence | intros k Hk; lia] | exact Hl].
    + intros i r r' Hi [Hag Hr]. split; [| now rewrite !length_upd].
      replace (4 * S i)%nat with
        (Nat.max (Nat.max (Nat.max (Nat.max (4 * i) (S (i * 4 + 0))) (S (i * 4 + 1)))
                    (S (i * 4 + 2))) (S (i * 4 + 3))) by lia.
      unfold Nk in Hi.
      repeat apply agree_upd; rewrite ?length_upd; try lia; exact Hag.
  - match goal with
    | |- snd (for_range ?lo ?hi ?body (?t0, _)) = _ =>
        pose proof (for_range_rel
           (fun i st st' => fst st = fst st' /\ agree (4 * i) (snd st) (snd st')
                            /\ length (snd st) = 176%nat)
           body body lo hi (t0, r0) (t0, r0')) as H1
    end.
    match type of H1 with
    | ?A -> ?B -> ?C -> _ =>
        assert (HA : A) by (unfold Nk, Nb, Nr; lia);
        assert (HB : B) by (split; [reflexivity | exact H0]);
        assert (HC : C); [clear H1 HA HB | specialize (H1 HA HB HC) ]
    end.
    + intros i [t r] [t' r'] Hi [Ht [Hag Hr]]. cbn [fst snd] in Ht, Hag, Hr. subst t'.
      unfold Nk, Nb, Nr in Hi. cbv beta iota.
      assert (Hrd : forall k, (k < 4 * i)%nat -> nth k r 0 = nth k r' 0)
        by (destruct Hag as [_ Hag]; exact Hag).
      assert (Hr' : length r' = 176%nat) by (destruct Hag; congruence).
      assert (E1 :
        for_range 0 4 (fun j tempa => upd j (nth ((i - 1) * 4 + j) r 0) tempa) t
        = for_range 0 4 (fun j tempa => upd j (nth ((i - 1) * 4 + j) r' 0) tempa) t).
      { cbn [for_range fold_left seq Nat.sub].
        rewrite !(Hrd ((i - 1) * 4 + _)%nat) by lia. reflexivity. }
      rewrite E1. clear E1.
      set (t1 := for_range 0 4 _ t). clearbody t1. repeat zeta_var.
      set (t2 := if (i mod Nk =? 0)%nat then _ else _). clearbody t2. repeat zeta_var.
      unfold Nk.
      (* RoundKey[i*4+0] *)
      rewrite (Hrd ((i - 4) * 4 + 0)%nat) by lia.
      set (v0 := nth ((i - 4) * 4 + 0) r' 0 .^ nth 0 t2 0). clearbody v0.
      assert (Hag1 : agree (Nat.max (4 * i) (S (i * 4 + 0))) (upd (i * 4 + 0) v0 r)
                       (upd (i * 4 + 0) v0 r')) by (apply agree_upd; [exact Hag | lia | lia]).
      assert (Hl1 : length (upd (i * 4 + 0) v0 r) = 176%nat) by now rewrite length_upd.
      set (r1 := upd (i * 4 + 0) v0 r) in *. set (r1' := upd (i * 4 + 0) v0 r') in *.
      clearbody r1 r1'. repeat zeta_var.
      (* RoundKey[i*4+1] *)
      rewrite (proj2 Hag1 ((i - 4) * 4 + 1)%nat) by lia.
      set (v1 := nth ((i - 4) * 4 + 1) r1' 0 .^ nth 1 t2 0). clearbody v1.
      assert (Hag2 : agree (Nat.max (Nat.max (4 * i) (S (i * 4 + 0))) (S (i * 4 + 1)))
                       (upd (i * 4 + 1) v1 r1) (upd (i * 4 + 1) v1 r1'))
        by (apply agree_upd; [exact Hag1 | lia | lia]).
      assert (Hl2 : length (upd (i * 4 + 1) v1 r1) = 176%nat) by now rewrite length_upd.
      set (r2 := upd (i * 4 + 1) v1 r1) in *. set (r2' := upd (i * 4 + 1) v1 r1') in *.
      clearbody r2 r2'. repeat zeta_var.
      (* RoundKey[i*4+2] *)
      rewrite (proj2 Hag2 ((i - 4) * 4 + 2)%nat) by lia.
      set (v2 := nth ((i - 4) * 4 + 2) r2' 0 .^ nth 2 t2 0). clearbody v2.
      assert (Hag3 : agree (Nat.max (Nat.max (Nat.max (4 * i) (S (i * 4 + 0)))
                                      (S (i * 4 + 1))) (S (i * 4 + 2)))
                       (upd (i * 4 + 2) v2 r2) (upd (i * 4 + 2) v2 r2'))
        by (apply agree_upd; [exact Hag2 | lia | lia]).
      assert (Hl3 : length (upd (i * 4 + 2) v2 r2) = 176%nat) by now rewrite length_upd.
      set (r3 := upd (i * 4 + 2) v2 r2) in *. set (r3' := upd (i * 4 + 2) v2 r2') in *.
      clearbody r3 r3'. repeat zeta_var.
      (* RoundKey[i*4+3] *)
      rewrite (proj2 Hag3 ((i - 4) * 4 + 3)%nat) by lia.
      set (v3 := nth ((i - 4) * 4 + 3) r3' 0 .^ nth 3 t2 0). clearbody v3.
      repeat zeta_var. cbn [fst snd].
      split; [reflexivity |]. split; [| now rewrite length_upd].
      replace (4 * S i)%nat with
        (Nat.max (Nat.max (Nat.max (Nat.max (4 * i) (S (i * 4 + 0))) (S (i * 4 + 1)))
                    (S (i * 4 + 2))) (S (i * 4 + 3))) by lia.
      apply agree_upd; [exact Hag3 | lia | lia].
    + destruct H1 as [_ [Hag Hlen]]. apply agree_all.
      replace (length (snd _)) with (4 * (Nb * (Nr + 1)))%nat
        by (rewrite Hlen; reflexivity).
      exact Hag.
Qed.

Lemma KeyExpansion_ext (Key Key' : nat -> Z) (rk : list Z) :
  (forall i, Key i = Key' i) -> KeyExpansion Key rk = KeyExpansion Key' rk.
Proof.
  intros H. cbv beta delta [KeyExpansion].
  match goal with
  | |- (let x := ?v in @?b x) = (let y := ?v' in @?b' y) => assert (E : v = v')
  end.
  - apply (for_range_rel (fun _ r r' => r = r')); [unfold Nk; lia | reflexivity |].
    intros i r r' _ ->. now rewrite !H.
  - rewrite E. reflexivity.
Qed.

(** The round keys are a function of the sixteen key bytes alone. *)
Lemma KeyExpansion_eq (Key Key' : nat -> Z) (rk rk' : list Z) :
  (forall i, Key i = Key' i) -> length rk = 176%nat -> length rk' = 176%nat ->
  KeyExpansion Key rk = KeyExpansion Key' rk'.
Proof.
  intros H Hl Hl'. rewrite (KeyExpansion_ext Key Key' rk H).
  apply KeyExpansion_init; assumption.
Qed.

Lemma load_cell (m : mem) (p : ptr) (i : nat) : load m p i = cell m (base p) (off p + i).
Proof. reflexivity. Qed.

Lemma region_store (m : mem) (p : ptr) (i : nat) (v : Z) (r : nat) :
  region (store m p i v) r
  = if (r =? base p)%nat then upd (off p + i) v (region m r) else region m r.
Proof.
  unfold store, region. rewrite nth_upd.
  destruct (r =? base p)%nat eqn:E; [| reflexivity].
  apply Nat.eqb_eq in E. subst r. cbn [andb].
  destruct (base p <? length m)%nat eqn:L; [reflexivity |].
  apply Nat.ltb_ge in L. rewrite (nth_overflow m [] L).
  destruct (off p + i)%nat; reflexivity.
Qed.

Lemma size_store (m : mem) (p : ptr) (i : nat) (v : Z) (r : nat) :
  size (store m p i v) r = size m r.
Proof.
  unfold size. rewrite region_store. destruct (r =? base p)%nat; [apply length_upd | reflexivity].
Qed.

Lemma cell_store (m : mem) (p : ptr) (i : nat) (v : Z) (r j : nat) :
  cell (store m p i v) r j
  = if (r =? base p)%nat && (j =? off p + i)%nat && (j <? size m r)%nat
    then v else cell m r j.
Proof.
  unfold cell, size. rewrite region_store.
  destruct (r =? base p)%nat; [| reflexivity]. cbn [andb]. rewrite nth_upd.
  destruct (j =? off p + i)%nat eqn:E; [| reflexivity].
  apply Nat.eqb_eq in E. subst j. reflexivity.
Qed.

Lemma region_ext (m m' : mem) (r : nat) :
  size m' r = size m r -> (forall j, cell m' r j = cell m r j) -> region m' r = region m r.
Proof.
  intros Hs Hc. apply (nth_ext _ _ 0 0 Hs). intros j _. apply Hc.
Qed.

Lemma read_ext (m m' : mem) (p p' : ptr) (n : nat) :
  (forall i, (i < n)%nat -> load m p i = load m' p' i) -> read m p n = read m' p' n.
Proof.
  intros H. unfold read. apply map_ext_in. intros i Hi. apply H. apply in_seq in Hi. lia.
Qed.

Lemma length_read (m : mem) (p : ptr) (n : nat) : length (read m p n) = n.
Proof. unfold read. now rewrite length_map, length_seq. Qed.

Lemma nth_read (m : mem) (p : ptr) (n i : nat) :
  (i < n)%nat -> nth i (read m p n) 0 = load m p i.
Proof.
  intros Hi. unfold read.
  rewrite (nth_indep _ 0 (load m p 0)) by now rewrite length_map, length_seq.
  rewrite map_nth. rewrite seq_nth by exact Hi. reflexivity.
Qed.

(** A loop that stores [n] bytes at [p], each computed from the current
    memory without reading a byte that the loop has already written, writes
    the bytes [g 0 .. g (n-1)]. *)
Lemma store_loop (p : ptr) (n : nat) (f : nat -> mem -> Z) (g : nat -> Z) (m : mem) :
  valid m p n ->
  (forall i m', (i < n)%nat -> same_outside p i m m' -> f i m' = g i) ->
  let m' := for_range 0 n (fun i m => store m p i (f i m)) m in
  same_outside p n m m' /\
  (forall i, (i < n)%nat -> load m' p i = g i).
Proof.
  intros Hv Hf.
  apply (for_range_inv (fun k m' =>
           same_outside p k m m' /\ forall i, (i < k)%nat -> load m' p i = g i)).
  - lia.
  - split; [split; [reflexivity | reflexivity] | intros i Hi; lia].
  - intros i m' Hi [[Hs Hc] Hl]. unfold valid in Hv. split; [split |].
    + intros r. rewrite size_store. apply Hs.
    + intros r j Hj. rewrite cell_store.
      destruct ((r =? base p)%nat && (j =? off p + i)%nat && (j <? size m' r)%nat) eqn:E.
      * apply andb_prop in E. destruct E as [E _]. apply andb_prop in E.
        destruct E as [E1 E2]. apply Nat.eqb_eq in E1, E2. exfalso. apply Hj. lia.
      * apply Hc. intros [Hr Hj']. apply Hj. lia.
    + intros k Hk. rewrite load_cell, cell_store, Nat.eqb_refl. cbn [andb].
      destruct (Nat.eq_dec k i) as [-> | Hne].
      * rewrite Nat.eqb_refl. cbn [andb].
        replace (off p + i <? size m' (base p))%nat with true
          by (symmetry; apply Nat.ltb_lt; rewrite Hs; unfold size; lia).
        apply Hf; [lia | split; assumption].
      * replace (off p + k =? off p + i)%nat with false
          by (symmetry; apply Nat.eqb_neq; lia).
        cbn [andb]. apply Hl. lia.
Qed.

Lemma KeyExpansion_ext16 (Key Key' : nat -> Z) (rk : list Z) :
  (forall i, (i < 16)%nat -> Key i = Key' i) -> KeyExpansion Key rk = KeyExpansion Key' rk.
Proof.
  intros H. cbv beta delta [KeyExpansion].
  match goal with
  | |- (let x := ?v in @?b x) = (let y := ?v' in @?b' y) => assert (E : v = v')
  end.
  - apply (for_range_rel (fun _ r r' => r = r')); [unfold Nk; lia | reflexivity |].
    intros i r r' Hi ->. unfold Nk in Hi. rewrite !H by lia. reflexivity.
  - rewrite E. reflexivity.
Qed.

Lemma bytes_repeat0 (n : nat) : bytes (repeat 0 n).
Proof. apply Forall_forall. intros x Hx. apply repeat_spec in Hx. subst x. unfold byte. lia. Qed.

Lemma bytes_round_keys (K : list Z) : bytes K -> bytes (round_keys K).
Proof.
  intros HK. apply KeyExpansion_bytes; [| apply bytes_repeat0].
  intros i. apply byte_nth. exact HK.
Qed.

Lemma length_round_keys (K : list Z) : length (round_keys K) = 176%nat.
Proof. rewrite KeyExpansion_length. apply repeat_length. Qed.

(** [KeyExpansion()] returns when [Key] is set, and then [RoundKey] holds the
    round keys of the sixteen bytes at [Key]. *)
Lemma KeyExpansion_at_spec (g : globals) (m : mem) (k : ptr) :
  Key g = Some k -> length (RoundKey g) = 176%nat ->
  KeyExpansion_at g m = Done (Globals (round_keys (read m k 16)) (Key g) (Iv g)).
Proof.
  intros Hk Hl. unfold KeyExpansion_at. rewrite Hk. f_equal. f_equal.
  rewrite (KeyExpansion_ext16 (load m k) (fun i => nth i (read m k 16) 0)).
  - apply KeyExpansion_init; [exact Hl | apply repeat_length].
  - intros i Hi. symmetry. apply nth_read. exact Hi.
Qed.

(** ** The drivers on blocks *)
Lemma same_outside_refl (p : ptr) (n : nat) (m : mem) : same_outside p n m m.
Proof. split; reflexivity. Qed.

Lemma same_outside_trans (p : ptr) (n : nat) (m1 m2 m3 : mem) :
  same_outside p n m1 m2 -> same_outside p n m2 m3 -> same_outside p n m1 m3.
Proof.
  intros [S1 C1] [S2 C2]. split.
  - intros r. now rewrite S2, S1.
  - intros r j H. now rewrite C2, C1.
Qed.

(** A footprint may be enlarged inside its region. *)
Lemma same_outside_weaken (p q : ptr) (n k : nat) (m m' : mem) :
  same_outside q k m m' ->
  base q = base p -> (off p <= off q)%nat -> (off q + k <= off p + n)%nat ->
  same_outside p n m m'.
Proof.
  intros [S C] Hb Hlo Hhi. split; [exact S |].
  intros r j H. apply C. intros [Hr Hj]. apply H. split; [congruence | lia].
Qed.

Lemma same_outside_region (p : ptr) (n : nat) (m m' : mem) (r : nat) :
  same_outside p n m m' -> r <> base p -> region m' r = region m r.
Proof.
  intros [S C] Hr. apply region_ext; [apply S |].
  intros j. apply C. intros [H _]. contradiction.
Qed.

Lemma same_outside_valid (p q : ptr) (n k : nat) (m m' : mem) :
  same_outside p n m m' -> valid m q k -> valid m' q k.
Proof.
  intros [S _] H. unfold valid in *. change (length (region m' (base q))) with (size m' (base q)).
  rewrite S. exact H.
Qed.

(** A block that does not meet the footprint reads the same. *)
Lemma same_outside_read (p q : ptr) (n k : nat) (m m' : mem) :
  same_outside p n m m' ->
  base q <> base p \/ (off q + k <= off p)%nat \/ (off p + n <= off q)%nat ->
  read m' q k = read m q k.
Proof.
  intros [S C] H. apply read_ext. intros i Hi. rewrite !load_cell. apply C.
  intros [Hr Hj]. destruct H as [H | [H | H]]; [contradiction | lia | lia].
Qed.

(** The stores of a loop stay inside the [n] bytes at [p], whatever is
    stored and whether or not the bytes exist. *)
Lemma store_loop_outside (p : ptr) (n : nat) (f : nat -> mem -> Z) (m : mem) :
  same_outside p n m (for_range 0 n (fun i m => store m p i (f i m)) m).
Proof.
  apply (for_range_inv (fun k m' => same_outside p n m m')).
  - lia.
  - apply same_outside_refl.
  - intros i m' Hi [S C]. split.
    + intros r. rewrite size_store. apply S.
    + intros r j Hj. rewrite cell_store.
      destruct ((r =? base p)%nat && (j =? off p + i)%nat && (j <? size m' r)%nat) eqn:E.
      * apply andb_prop in E. destruct E as [E _]. apply andb_prop in E.
        destruct E as [E1 E2]. apply Nat.eqb_eq in E1, E2. exfalso. apply Hj. lia.
      * apply C. exact Hj.
Qed.

Lemma read_store_loop (p : ptr) (n : nat) (f : nat -> mem -> Z) (l : list Z) (m : mem) :
  valid m p n -> length l = n ->
  (forall i m', (i < n)%nat -> same_outside p i m m' -> f i m' = nth i l 0) ->
  read (for_range 0 n (fun i m => store m p i (f i m)) m) p n = l.
Proof.
  intros Hv Hl Hf.
  destruct (store_loop p n f (fun i => nth i l 0) m Hv Hf) as [_ H].
  apply (nth_ext _ _ 0 0).
  - now rewrite length_read.
  - intros i Hi. rewrite length_read in Hi. rewrite nth_read by exact Hi. apply H. exact Hi.
Qed.

Lemma BlockCopy_outside (output input : ptr) (m : mem) :
  same_outside output 16 m (BlockCopy output input m).
Proof. apply (store_loop_outside output 16 (fun i m => load m input i)). Qed.

Lemma BlockCopy_read (output input : ptr) (m : mem) :
  base input <> base output -> valid m output 16 ->
  read (BlockCopy output input m) output 16 = read m input 16.
Proof.
  intros Hne Hv. unfold BlockCopy, KEYLEN.
  apply (read_store_loop output 16 (fun i m => load m input i)).
  - exact Hv.
  - apply length_read.
  - intros i m' Hi [S C]. rewrite nth_read by exact Hi. rewrite !load_cell.
    apply C. intros [H _]. contradiction.
Qed.

Lemma store_state_outside (p : ptr) (s : state_t) (m : mem) :
  same_outside p 16 m (store_state m p s).
Proof. apply (store_loop_outside p 16 (fun i _ => nth i s 0)). Qed.

Lemma store_state_read (p : ptr) (s : state_t) (m : mem) :
  valid m p 16 -> length s = 16%nat -> read (store_state m p s) p 16 = s.
Proof.
  intros Hv Hl. unfold store_state.
  apply (read_store_loop p 16 (fun i _ => nth i s 0)); auto.
Qed.

Lemma memset_outside (p : ptr) (c : Z) (n : nat) (m : mem) :
  same_outside p n m (memset p c n m).
Proof. apply (store_loop_outside p n (fun _ _ => u8 c)). Qed.

Lemma memset_read (p : ptr) (c : Z) (n : nat) (m : mem) :
  valid m p n -> read (memset p c n m) p n = repeat (u8 c) n.
Proof.
  intros Hv. unfold memset.
  apply (read_store_loop p n (fun _ _ => u8 c)).
  - exact Hv.
  - apply repeat_length.
  - intros i m' Hi _. symmetry. apply nth_repeat_lt. exact Hi.
Qed.

Lemma XorWithIv_spec (buf iv : ptr) (g : globals) (m : mem) :
  Iv g = Some iv -> base iv <> base buf -> valid m buf 16 ->
  exists m', XorWithIv buf g m = Done m' /\
    same_outside buf 16 m m' /\
    read m' buf 16 = xor_block (read m buf 16) (read m iv 16).
Proof.
  intros Hiv Hne Hv. unfold XorWithIv, KEYLEN. rewrite Hiv.
  eexists. split; [reflexivity |]. split.
  - apply (store_loop_outside buf 16 (fun i m => load m buf i .^ load m iv i)).
  - apply (read_store_loop buf 16 (fun i m => load m buf i .^ load m iv i)).
    + exact Hv.
    + unfold xor_block. now rewrite length_map, length_seq.
    + intros i m' Hi [S C]. unfold xor_block.
      rewrite (nth_indep _ 0 (nth 0 (read m buf 16) 0 .^ nth 0 (read m iv 16) 0))
        by (rewrite length_map, length_seq; exact Hi).
      rewrite (map_nth (fun i => nth i (read m buf 16) 0 .^ nth i (read m iv 16) 0)).
      rewrite seq_nth by exact Hi. cbn [Nat.add].
      rewrite !nth_read by exact Hi. rewrite !load_cell.
      rewrite (C (base buf)) by (intros [_ H]; lia).
      rewrite (C (base iv)) by (intros [H _]; contradiction).
      reflexivity.
Qed.

(** ** The ciphers on a block in memory *)
Lemma is_state_rng : is_state rng.
Proof. split; [reflexivity | exact bytes_rng]. Qed.

Lemma is_state_read (m : mem) (p : ptr) : bytes (read m p 16) -> is_state (read m p 16).
Proof. intros H. split; [apply length_read | exact H]. Qed.

(** The masked [Cipher] is the plain cipher. *)
Lemma Cipher_is_plain (rk : list Z) (s : state_t) :
  bytes rk -> is_state s -> Cipher rk s = Cipher_plain rk s.
Proof.
  intros Hrk Hs. unfold Cipher. apply Cipher_seeded_plain; auto using is_state_rng.
Qed.

Lemma is_state_Cipher (rk : list Z) (s : state_t) :
  bytes rk -> is_state s -> is_state (Cipher rk s).
Proof.
  intros Hrk Hs. rewrite Cipher_is_plain by assumption.
  apply is_state_Cipher_plain; assumption.
Qed.

Lemma is_state_inverse_rounds (rk : list Z) (rounds : list nat) :
  bytes rk ->
  forall s : state_t, is_state s ->
  is_state (fold_left (fun state round =>
      let state := InvShiftRows state in
      let state := InvSubBytes state in
      let state := AddRoundKey rk state round in
      let state := InvMixColumns state in
      state) rounds s).
Proof.
  intros Hrk. induction rounds as [| r rounds IH]; intros s Hs.
  - now rewrite fold_left_nil.
  - rewrite fold_left_cons. apply IH. cbv zeta. auto with states.
Qed.

Lemma is_state_InvCipher (rk : list Z) (s : state_t) :
  bytes rk -> is_state s -> is_state (InvCipher rk s).
Proof.
  intros Hrk Hs. unfold InvCipher, for_down. cbv zeta.
  apply is_state_AddRoundKey; [exact Hrk |].
  apply is_state_InvSubBytes, is_state_InvShiftRows.
  apply is_state_inverse_rounds; auto with states.
Qed.

(** Decryption of an encrypted block gives the block back. *)
Lemma InvCipher_Cipher (rk : list Z) (s : state_t) :
  bytes rk -> is_state s -> InvCipher rk (Cipher rk s) = s.
Proof.
  intros Hrk Hs. rewrite Cipher_is_plain by assumption.
  apply InvCipher_Cipher_plain; assumption.
Qed.

Lemma Cipher_at_outside (p : ptr) (g : globals) (m : mem) :
  same_outside p 16 m (Cipher_at p g m).
Proof. apply store_state_outside. Qed.

Lemma Cipher_at_read (p : ptr) (g : globals) (m : mem) :
  valid m p 16 -> bytes (RoundKey g) -> bytes (read m p 16) ->
  read (Cipher_at p g m) p 16 = Cipher (RoundKey g) (read m p 16).
Proof.
  intros Hv Hrk Hb. unfold Cipher_at, load_state.
  apply store_state_read; [exact Hv |].
  apply is_state_length, is_state_Cipher; [exact Hrk | now apply is_state_read].
Qed.

Lemma InvCipher_at_outside (p : ptr) (g : globals) (m : mem) :
  same_outside p 16 m (InvCipher_at p g m).
Proof. apply store_state_outside. Qed.

Lemma InvCipher_at_read (p : ptr) (g : globals) (m : mem) :
  valid m p 16 -> bytes (RoundKey g) -> bytes (read m p 16) ->
  read (InvCipher_at p g m) p 16 = InvCipher (RoundKey g) (read m p 16).
Proof.
  intros Hv Hrk Hb. unfold InvCipher_at, load_state.
  apply store_state_read; [exact Hv |].
  apply is_state_length, is_state_InvCipher; [exact Hrk | now apply is_state_read].
Qed.

(** ** ECB *)
(** What [AES128_ECB_encrypt] does: it returns, the round keys are those of
    the key, the output block is the encryption of the input block, and
    nothing but the output block is written in memory. *)
Lemma ECB_encrypt_spec (input key output : ptr) (g : globals) (m : mem) :
  base input <> base output -> base key <> base output ->
  valid m output 16 -> length (RoundKey g) = 176%nat ->
  bytes (read m input 16) -> bytes (read m key 16) ->
  exists m',
    AES128_ECB_encrypt input key output g m
    = Done (Globals (round_keys (read m key 16)) (Some key) (Iv g), m') /\
    same_outside output 16 m m' /\
    read m' output 16 = Cipher (round_keys (read m key 16)) (read m input 16).
Proof.
  intros Hio Hko Hv Hl Hbi Hbk. unfold AES128_ECB_encrypt. cbv zeta.
  pose proof (BlockCopy_outside output input m) as Hout.
  pose proof (BlockCopy_read output input m Hio Hv) as Hrd.
  set (m1 := BlockCopy output input m) in *.
  rewrite (KeyExpansion_at_spec _ m1 key) by (cbn [Key RoundKey]; auto).
  cbn [bind Key Iv RoundKey].
  rewrite (same_outside_read output key 16 16 m m1 Hout) by auto.
  eexists. split; [reflexivity |]. split.
  - eapply same_outside_trans; [exact Hout | apply Cipher_at_outside].
  - rewrite Cipher_at_read.
    + cbn [RoundKey]. rewrite Hrd. reflexivity.
    + eapply same_outside_valid; [exact Hout | exact Hv].
    + cbn [RoundKey]. apply bytes_round_keys. exact Hbk.
    + rewrite Hrd. exact Hbi.
Qed.

Lemma ECB_decrypt_spec (input key output : ptr) (g : globals) (m : mem) :
  base input <> base output -> base key <> base output ->
  valid m output 16 -> length (RoundKey g) = 176%nat ->
  bytes (read m input 16) -> bytes (read m key 16) ->
  exists m',
    AES128_ECB_decrypt input key output g m
    = Done (Globals (round_keys (read m key 16)) (Some key) (Iv g), m') /\
    same_outside output 16 m m' /\
    read m' output 16 = InvCipher (round_keys (read m key 16)) (read m input 16).
Proof.
  intros Hio Hko Hv Hl Hbi Hbk. unfold AES128_ECB_decrypt. cbv zeta.
  pose proof (BlockCopy_outside output input m) as Hout.
  pose proof (BlockCopy_read output input m Hio Hv) as Hrd.
  set (m1 := BlockCopy output input m) in *.
  rewrite (KeyExpansion_at_spec _ m1 key) by (cbn [Key RoundKey]; auto).
  cbn [bind Key Iv RoundKey].
  rewrite (same_outside_read output key 16 16 m m1 Hout) by auto.
  eexists. split; [reflexivity |]. split.
  - eapply same_outside_trans; [exact Hout | apply InvCipher_at_outside].
  - rewrite InvCipher_at_read.
    + cbn [RoundKey]. rewrite Hrd. reflexivity.
    + eapply same_outside_valid; [exact Hout | exact Hv].
    + cbn [RoundKey]. apply bytes_round_keys. exact Hbk.
    + rewrite Hrd. exact Hbi.
Qed.

(** The calls always return and write nothing but the sixteen bytes at
    [output] and the file-scope [RoundKey] and [Key]. *)
Lemma ECB_encrypt_frame (input key output : ptr) (g : globals) (m : mem) :
  exists g' m',
    AES128_ECB_encrypt input key output g m = Done (g', m') /\
    same_outside output 16 m m' /\ Key g' = Some key /\ Iv g' = Iv g.
Proof.
  unfold AES128_ECB_encrypt, KeyExpansion_at. cbv zeta. cbn [Key bind Iv RoundKey].
  eexists. eexists. split; [reflexivity |]. split; [| split; reflexivity].
  eapply same_outside_trans; [apply BlockCopy_outside | apply Cipher_at_outside].
Qed.

Lemma ECB_decrypt_frame (input key output : ptr) (g : globals) (m : mem) :
  exists g' m',
    AES128_ECB_decrypt input key output g m = Done (g', m') /\
    same_outside output 16 m m' /\ Key g' = Some key /\ Iv g' = Iv g.
Proof.
  unfold AES128_ECB_decrypt, KeyExpansion_at. cbv zeta. cbn [Key bind Iv RoundKey].
  eexists. eexists. split; [reflexivity |]. split; [| split; reflexivity].
  eapply same_outside_trans; [apply BlockCopy_outside | apply InvCipher_at_outside].
Qed.

(** ** The claims on the cipher and on ECB *)
(** C2: the output of the forward cipher does not depend on the mask seed:
    for every 16-byte plaintext [P], every 16-byte key [K] (expanded into
    any 176-byte [RoundKey] array) and any two 16-byte seeds [M1] and [M2],
    the cipher with seed [M1] and the cipher with seed [M2] give the same
    block. *)
Theorem Cipher_seed_independent (P K M1 M2 rk0 : list Z) :
  is_state P -> is_state K -> is_state M1 -> is_state M2 -> length rk0 = 176%nat ->
  Cipher_seeded M1 (KeyExpansion (fun i => nth i K 0) rk0) P
  = Cipher_seeded M2 (KeyExpansion (fun i => nth i K 0) rk0) P.
Proof.
  intros HP [_ HK] HM1 HM2 Hl.
  rewrite (KeyExpansion_init _ rk0 (repeat 0 176) Hl (repeat_length 0 176)).
  pose proof (bytes_round_keys K HK) as Hrk.
  rewrite !Cipher_seeded_plain by assumption. reflexivity.
Qed.

(** C4: for every 16-byte plaintext and every 16-byte key, in separate
    buffers, [AES128_ECB_decrypt] with the key applied to the output of
    [AES128_ECB_encrypt] gives the plaintext back. *)
Theorem ECB_decrypt_encrypt (input key output output2 : ptr) (g : globals) (m : mem) :
  base input <> base output -> base key <> base output ->
  base output <> base output2 -> base key <> base output2 ->
  valid m input 16 -> valid m key 16 -> valid m output 16 -> valid m output2 16 ->
  length (RoundKey g) = 176%nat ->
  bytes (read m input 16) -> bytes (read m key 16) ->
  exists g1 m1 g2 m2,
    AES128_ECB_encrypt input key output g m = Done (g1, m1) /\
    AES128_ECB_decrypt output key output2 g1 m1 = Done (g2, m2) /\
    read m2 output2 16 = read m input 16.
Proof.
  intros Hio Hko Hoo Hko2 Hvi Hvk Hvo Hvo2 Hl Hbi Hbk.
  destruct (ECB_encrypt_spec input key output g m Hio Hko Hvo Hl Hbi Hbk)
    as [m1 [E1 [F1 R1]]].
  assert (Hk1 : read m1 key 16 = read m key 16)
    by (apply (same_outside_read output key 16 16 m m1 F1); auto).
  pose proof (bytes_round_keys _ Hbk) as Hrk.
  assert (Hs : is_state (read m input 16)) by now apply is_state_read.
  set (g1 := Globals (round_keys (read m key 16)) (Some key) (Iv g)) in *.
  destruct (ECB_decrypt_spec output key output2 g1 m1 Hoo Hko2) as [m2 [E2 [F2 R2]]].
  - eapply same_outside_valid; [exact F1 | exact Hvo2].
  - unfold g1. cbn [RoundKey]. apply length_round_keys.
  - rewrite R1. apply is_state_Cipher; assumption.
  - rewrite Hk1. exact Hbk.
  - exists g1, m1. eexists. exists m2. split; [exact E1 |]. split; [exact E2 |].
    rewrite R2, Hk1, R1. unfold g1. cbn [RoundKey].
    apply InvCipher_Cipher; assumption.
Qed.

Lemma Cipher_seed_independent_witness :
  is_state tv_plain /\ is_state tv_key /\ is_state rng /\ is_state (repeat 0 16) /\
  length (repeat 0 176) = 176%nat /\
  Cipher_seeded rng (KeyExpansion (fun i => nth i tv_key 0) (repeat 0 176)) tv_plain
  = Cipher_seeded (repeat 0 16) (KeyExpansion (fun i => nth i tv_key 0) (repeat 0 176)) tv_plain.
Proof.
  assert (H1 : is_state tv_plain)
    by (split; [reflexivity | apply bytes_forallb; reflexivity]).
  assert (H2 : is_state tv_key)
    by (split; [reflexivity | apply bytes_forallb; reflexivity]).
  assert (H3 : is_state rng)
    by (split; [reflexivity | apply bytes_forallb; reflexivity]).
  assert (H4 : is_state (repeat 0 16))
    by (split; [reflexivity | apply bytes_forallb; reflexivity]).
  assert (H5 : length (repeat 0 176) = 176%nat) by reflexivity.
  do 5 (split; [assumption |]).
  exact (Cipher_seed_independent tv_plain tv_key rng (repeat 0 16) (repeat 0 176)
           H1 H2 H3 H4 H5).
Defined.

Lemma ECB_decrypt_encrypt_witness :
  base (Ptr 0 0) <> base (Ptr 2 0) /\ base (Ptr 1 0) <> base (Ptr 2 0) /\
  base (Ptr 2 0) <> base (Ptr 3 0) /\ base (Ptr 1 0) <> base (Ptr 3 0) /\
  valid tv_mem (Ptr 0 0) 16 /\ valid tv_mem (Ptr 1 0) 16 /\
  valid tv_mem (Ptr 2 0) 16 /\ valid tv_mem (Ptr 3 0) 16 /\
  length (RoundKey tv_globals) = 176%nat /\
  bytes (read tv_mem (Ptr 0 0) 16) /\ bytes (read tv_mem (Ptr 1 0) 16) /\
  exists g1 m1 g2 m2,
    AES128_ECB_encrypt (Ptr 0 0) (Ptr 1 0) (Ptr 2 0) tv_globals tv_mem = Done (g1, m1) /\
    AES128_ECB_decrypt (Ptr 2 0) (Ptr 1 0) (Ptr 3 0) g1 m1 = Done (g2, m2) /\
    read m2 (Ptr 3 0) 16 = read tv_mem (Ptr 0 0) 16.
Proof.
  assert (H1 : base (Ptr 0 0) <> base (Ptr 2 0)) by (cbn; lia).
  assert (H2 : base (Ptr 1 0) <> base (Ptr 2 0)) by (cbn; lia).
  assert (H3 : base (Ptr 2 0) <> base (Ptr 3 0)) by (cbn; lia).
  assert (H4 : base (Ptr 1 0) <> base (Ptr 3 0)) by (cbn; lia).
  assert (H5 : valid tv_mem (Ptr 0 0) 16) by (unfold valid; cbn; lia).
  assert (H6 : valid tv_mem (Ptr 1 0) 16) by (unfold valid; cbn; lia).
  assert (H7 : valid tv_mem (Ptr 2 0) 16) by (unfold valid; cbn; lia).
  assert (H8 : valid tv_mem (Ptr 3 0) 16) by (unfold valid; cbn; lia).
  assert (H9 : length (RoundKey tv_globals) = 176%nat) by reflexivity.
  assert (H10 : bytes (read tv_mem (Ptr 0 0) 16)) by (apply bytes_forallb; reflexivity).
  assert (H11 : bytes (read tv_mem (Ptr 1 0) 16)) by (apply bytes_forallb; reflexivity).
  do 11 (split; [assumption |]).
  exact (ECB_decrypt_encrypt (Ptr 0 0) (Ptr 1 0) (Ptr 2 0) (Ptr 3 0) tv_globals tv_mem
           H1 H2 H3 H4 H5 H6 H7 H8 H9 H10 H11).
Defined.

(** C5: [AES128_ECB_encrypt] with key 2b7e151628aed2a6abf7158809cf4f3c on the
    plaintext block 6bc1bee22e409f96e93d7e117393172a writes the ciphertext
    block 3ad77bb40d7a3660a89ecaf32466ef97 into the output buffer, whatever
    the 176-byte [RoundKey] array held before. *)
Theorem ECB_encrypt_test_vector (g : globals) :
  length (RoundKey g) = 176%nat ->
  exists g',
    AES128_ECB_encrypt (Ptr 0 0) (Ptr 1 0) (Ptr 2 0) g [tv_plain; tv_key; repeat 0 16]
    = Done (g', [tv_plain; tv_key; tv_cipher]).
Proof.
  intros Hl. unfold AES128_ECB_encrypt. cbv zeta.
  rewrite (KeyExpansion_at_spec _ _ (Ptr 1 0)) by (cbn [Key RoundKey]; auto).
  cbn [bind].
  match goal with
  | |- exists g', Done (?G, ?M) = _ =>
      exists G; apply (f_equal (fun m' => Done (G, m')))
  end.
  vm_compute. reflexivity.
Qed.

Lemma ECB_encrypt_test_vector_witness :
  length (RoundKey tv_globals) = 176%nat /\
  exists g',
    AES128_ECB_encrypt (Ptr 0 0) (Ptr 1 0) (Ptr 2 0) tv_globals
      [tv_plain; tv_key; repeat 0 16]
    = Done (g', [tv_plain; tv_key; tv_cipher]).
Proof.
  assert (H : length (RoundKey tv_globals) = 176%nat) by reflexivity.
  split; [exact H |]. exact (ECB_encrypt_test_vector tv_globals H).
Defined.

(** C10: [AES128_ECB_encrypt] and [AES128_ECB_decrypt], called with an
    output buffer separate from the input and key buffers, return and leave
    the input bytes and the key bytes as they were; in memory they write
    nothing but the sixteen bytes at [output] (every other region, and the
    rest of the output region, is unchanged), and of the file-scope
    variables they write [RoundKey] and [Key] and leave [Iv] alone. *)
Theorem ECB_leaves_input_and_key (input key output : ptr) (g : globals) (m : mem) :
  base input <> base output -> base key <> base output ->
  (exists g' m',
     AES128_ECB_encrypt input key output g m = Done (g', m') /\
     read m' input 16 = read m input 16 /\ read m' key 16 = read m key 16 /\
     (forall r, r <> base output -> region m' r = region m r) /\
     same_outside output 16 m m' /\ Iv g' = Iv g) /\
  (exists g' m',
     AES128_ECB_decrypt input key output g m = Done (g', m') /\
     read m' input 16 = read m input 16 /\ read m' key 16 = read m key 16 /\
     (forall r, r <> base output -> region m' r = region m r) /\
     same_outside output 16 m m' /\ Iv g' = Iv g).
Proof.
  intros Hio Hko. split.
  - destruct (ECB_encrypt_frame input key output g m) as [g' [m' [E [F [_ HIv]]]]].
    exists g', m'. split; [exact E |].
    split; [apply (same_outside_read output input 16 16 m m' F); auto |].
    split; [apply (same_outside_read output key 16 16 m m' F); auto |].
    split; [intros r Hr; apply (same_outside_region output 16 m m' r F Hr) |].
    split; [exact F | exact HIv].
  - destruct (ECB_decrypt_frame input key output g m) as [g' [m' [E [F [_ HIv]]]]].
    exists g', m'. split; [exact E |].
    split; [apply (same_outside_read output input 16 16 m m' F); auto |].
    split; [apply (same_outside_read output key 16 16 m m' F); auto |].
    split; [intros r Hr; apply (same_outside_region output 16 m m' r F Hr) |].
    split; [exact F | exact HIv].
Qed.

Lemma ECB_leaves_input_and_key_witness :
  base (Ptr 0 0) <> base (Ptr 2 0) /\ base (Ptr 1 0) <> base (Ptr 2 0) /\
  (exists g' m',
     AES128_ECB_encrypt (Ptr 0 0) (Ptr 1 0) (Ptr 2 0) tv_globals tv_mem = Done (g', m') /\
     read m' (Ptr 0 0) 16 = read tv_mem (Ptr 0 0) 16 /\
     read m' (Ptr 1 0) 16 = read tv_mem (Ptr 1 0) 16 /\
     (forall r, r <> base (Ptr 2 0) -> region m' r = region tv_mem r) /\
     same_outside (Ptr 2 0) 16 tv_mem m' /\ Iv g' = Iv tv_globals) /\
  (exists g' m',
     AES128_ECB_decrypt (Ptr 0 0) (Ptr 1 0) (Ptr 2 0) tv_globals tv_mem = Done (g', m') /\
     read m' (Ptr 0 0) 16 = read tv_mem (Ptr 0 0) 16 /\
     read m' (Ptr 1 0) 16 = read tv_mem (Ptr 1 0) 16 /\
     (forall r, r <> base (Ptr 2 0) -> region m' r = region tv_mem r) /\
     same_outside (Ptr 2 0) 16 tv_mem m' /\ Iv g' = Iv tv_globals).
Proof.
  assert (H1 : base (Ptr 0 0) <> base (Ptr 2 0)) by (cbn; lia).
  assert (H2 : base (Ptr 1 0) <> base (Ptr 2 0)) by (cbn; lia).
  split; [exact H1 |]. split; [exact H2 |].
  exact (ECB_leaves_input_and_key (Ptr 0 0) (Ptr 1 0) (Ptr 2 0) tv_globals tv_mem H1 H2).
Defined.

(** The key schedule is unfolded last when two terms are compared. *)
Strategy 100 [KeyExpansion].

(** ** Blocks of a buffer *)
Lemma same_outside_except (F : nat -> nat -> Prop) (p : ptr) (n : nat) (m m' : mem) :
  same_outside p n m m' -> (forall r j, in_block p n r j -> F r j) -> same_except F m m'.
Proof.
  intros [S C] H. split; [exact S |]. intros r j Hn. apply C. intros Hb. apply Hn, H, Hb.
Qed.

Lemma same_except_refl (F : nat -> nat -> Prop) (m : mem) : same_except F m m.
Proof. split; reflexivity. Qed.

Lemma same_except_trans (F : nat -> nat -> Prop) (m1 m2 m3 : mem) :
  same_except F m1 m2 -> same_except F m2 m3 -> same_except F m1 m3.
Proof.
  intros [S1 C1] [S2 C2]. split.
  - intros r. now rewrite S2, S1.
  - intros r j H. now rewrite C2, C1.
Qed.

Lemma same_except_weaken (F G : nat -> nat -> Prop) (m m' : mem) :
  same_except F m m' -> (forall r j, F r j -> G r j) -> same_except G m m'.
Proof.
  intros [S C] H. split; [exact S |]. intros r j Hn. apply C. intros Hf. apply Hn, H, Hf.
Qed.

Lemma same_except_read (F : nat -> nat -> Prop) (q : ptr) (k : nat) (m m' : mem) :
  same_except F m m' ->
  (forall i, (i < k)%nat -> ~ F (base q) (off q + i)%nat) ->
  read m' q k = read m q k.
Proof.
  intros [S C] H. apply read_ext. intros i Hi. rewrite !load_cell. apply C, H, Hi.
Qed.

Lemma same_except_valid (F : nat -> nat -> Prop) (q : ptr) (k : nat) (m m' : mem) :
  same_except F m m' -> valid m q k -> valid m' q k.
Proof.
  intros [S _] H. unfold valid in *.
  change (length (region m' (base q))) with (size m' (base q)). rewrite S. exact H.
Qed.

Lemma same_except_region (F : nat -> nat -> Prop) (m m' : mem) (r : nat) :
  same_except F m m' -> (forall j, ~ F r j) -> region m' r = region m r.
Proof.
  intros [S C] H. apply region_ext; [apply S |]. intros j. apply C, H.
Qed.

Lemma bytes_read_iff (m : mem) (p : ptr) (n : nat) :
  bytes (read m p n) <-> forall i, (i < n)%nat -> byte (load m p i).
Proof.
  unfold bytes, read. rewrite Forall_forall. split.
  - intros H i Hi. apply H. apply in_map. apply in_seq. lia.
  - intros H x Hx. apply in_map_iff in Hx. destruct Hx as [i [<- Hi]].
    apply H. apply in_seq in Hi. lia.
Qed.

Lemma load_padd (m : mem) (p : ptr) (a i : nat) :
  load m (padd p a) i = load m p (a + i).
Proof. unfold load, padd. cbn [base off]. now rewrite Nat.add_assoc. Qed.

Lemma padd_padd (p : ptr) (a b : nat) : padd (padd p a) b = padd p (a + b).
Proof. unfold padd. cbn [base off]. now rewrite Nat.add_assoc. Qed.

Lemma padd_0 (p : ptr) : padd p 0 = p.
Proof. destruct p as [b o]. unfold padd. cbn [base off]. now rewrite Nat.add_0_r. Qed.

(** Block [k] of a buffer of bytes holds bytes. *)
Lemma bytes_block (m : mem) (p : ptr) (n k : nat) :
  bytes (read m p (16 * n)) -> (k < n)%nat -> bytes (read m (padd p (16 * k)) 16).
Proof.
  rewrite !bytes_read_iff. intros H Hk i Hi. rewrite load_padd. apply H. lia.
Qed.

(** Two buffers with the same blocks are the same. *)
Lemma read_blocks (m m' : mem) (p p' : ptr) (n : nat) :
  (forall k, (k < n)%nat -> read m (padd p (16 * k)) 16 = read m' (padd p' (16 * k)) 16) ->
  read m p (16 * n) = read m' p' (16 * n).
Proof.
  intros H. apply read_ext. intros i Hi.
  assert (Hk : (i / 16 < n)%nat) by (apply Nat.Div0.div_lt_upper_bound; lia).
  specialize (H (i / 16)%nat Hk).
  assert (Hr : (i mod 16 < 16)%nat) by (apply Nat.mod_upper_bound; lia).
  pose proof (nth_read m (padd p (16 * (i / 16))) 16 (i mod 16) Hr) as E1.
  pose proof (nth_read m' (padd p' (16 * (i / 16))) 16 (i mod 16) Hr) as E2.
  rewrite H, E2 in E1. rewrite !load_padd in E1.
  rewrite <- (Nat.div_mod_eq i 16) in E1. symmetry. exact E1.
Qed.

Lemma length_xor_block (a b : list Z) : length (xor_block a b) = 16%nat.
Proof. reflexivity. Qed.

Lemma nth_xor_block (a b : list Z) (i : nat) :
  (i < 16)%nat -> nth i (xor_block a b) 0 = nth i a 0 .^ nth i b 0.
Proof.
  intros Hi. unfold xor_block.
  do 16 (destruct i as [| i]; [reflexivity |]). lia.
Qed.

Lemma bytes_xor_block (a b : list Z) : bytes a -> bytes b -> bytes (xor_block a b).
Proof.
  intros Ha Hb. unfold xor_block, bytes.
  apply Forall_forall. intros x Hx. apply in_map_iff in Hx.
  destruct Hx as [i [<- _]]. auto with bytes.
Qed.

Lemma xor_block_involutive (a b : list Z) :
  length a = 16%nat -> xor_block (xor_block a b) b = a.
Proof.
  intros Ha. apply (nth_ext _ _ 0 0).
  - now rewrite length_xor_block.
  - intros i Hi. rewrite length_xor_block in Hi.
    rewrite !nth_xor_block by exact Hi.
    rewrite Z.lxor_assoc, Z.lxor_nilpotent, Z.lxor_0_r. reflexivity.
Qed.

Lemma is_state_xor_block (a b : list Z) : bytes a -> bytes b -> is_state (xor_block a b).
Proof. intros Ha Hb. split; [reflexivity | now apply bytes_xor_block]. Qed.

(** ** CBC encryption *)
(** One turn of the loop of [AES128_CBC_encrypt_buffer]. *)
Lemma cbc_encrypt_body (pi po pv : ptr) (g : globals) (m : mem) :
  Iv g = Some pv -> base pv <> base pi -> base po <> base pi ->
  valid m pi 16 -> valid m po 16 ->
  bytes (RoundKey g) -> bytes (read m pi 16) -> bytes (read m pv 16) ->
  exists m1,
    XorWithIv pi g m = Done m1 /\
    let m3 := Cipher_at po g (BlockCopy po pi m1) in
    same_except (fun r j => in_block pi 16 r j \/ in_block po 16 r j) m m3 /\
    read m3 pi 16 = xor_block (read m pi 16) (read m pv 16) /\
    read m3 po 16 = Cipher (RoundKey g) (read m3 pi 16).
Proof.
  intros Hiv Hvi Hoi Vi Vo Brk Bi Bv.
  destruct (XorWithIv_spec pi pv g m Hiv Hvi Vi) as [m1 [E [F1 R1]]].
  exists m1. split; [exact E |]. cbv zeta.
  pose proof (BlockCopy_outside po pi m1) as F2.
  assert (Vo1 : valid m1 po 16) by (eapply same_outside_valid; [exact F1 | exact Vo]).
  pose proof (BlockCopy_read po pi m1 (not_eq_sym Hoi) Vo1) as R2.
  set (m2 := BlockCopy po pi m1) in *.
  pose proof (Cipher_at_outside po g m2) as F3.
  assert (Vo2 : valid m2 po 16) by (eapply same_outside_valid; [exact F2 | exact Vo1]).
  assert (B2 : bytes (read m2 po 16))
    by (rewrite R2, R1; now apply bytes_xor_block).
  pose proof (Cipher_at_read po g m2 Vo2 Brk B2) as R3.
  set (m3 := Cipher_at po g m2) in *.
  assert (Ri : read m3 pi 16 = read m1 pi 16).
  { rewrite (same_outside_read po pi 16 16 m2 m3 F3) by (left; auto).
    apply (same_outside_read po pi 16 16 m1 m2 F2). left. auto. }
  split; [| split].
  - apply (same_except_trans _ m m1 m3).
    + apply (same_outside_except _ pi 16 m m1 F1). intros r j H. now left.
    + apply (same_except_trans _ m1 m2 m3).
      * apply (same_outside_except _ po 16 m1 m2 F2). intros r j H. now right.
      * apply (same_outside_except _ po 16 m2 m3 F3). intros r j H. now right.
  - rewrite Ri. exact R1.
  - rewrite R3, R2, Ri. reflexivity.
Qed.

Lemma bytes_read_tail (m : mem) (p : ptr) (n : nat) :
  bytes (read m p (16 * S n)) -> bytes (read m (padd p 16) (16 * n)).
Proof.
  rewrite !bytes_read_iff. intros H i Hi. rewrite load_padd. apply H. lia.
Qed.

Lemma bytes_read_head (m : mem) (p : ptr) (n : nat) :
  bytes (read m p (16 * S n)) -> bytes (read m p 16).
Proof.
  rewrite !bytes_read_iff. intros H i Hi. apply H. lia.
Qed.

(** The loop of [AES128_CBC_encrypt_buffer] over [n] whole blocks. *)
Lemma cbc_encrypt_loop_spec (n : nat) :
  forall (fuel : nat) (i len : Z) (pi po pv : ptr) (g : globals) (m : mem),
  len = i + 16 * Z.of_nat n -> (n < fuel)%nat ->
  Iv g = Some pv -> base pv <> base pi -> base po <> base pi ->
  valid m pi (16 * n) -> valid m po (16 * n) ->
  bytes (RoundKey g) -> bytes (read m pi (16 * n)) -> bytes (read m pv 16) ->
  exists g' m',
    cbc_encrypt_loop fuel i len pi po g m
    = Done (padd pi (16 * n), padd po (16 * n), g', m') /\
    RoundKey g' = RoundKey g /\ Key g' = Key g /\
    same_except (fun r j => in_block pi (16 * n) r j \/ in_block po (16 * n) r j) m m' /\
    forall k, (k < n)%nat ->
      read m' (padd pi (16 * k)) 16
      = xor_block (read m (padd pi (16 * k)) 16) (chain_iv m' po (read m pv 16) k) /\
      read m' (padd po (16 * k)) 16
      = Cipher (RoundKey g) (read m' (padd pi (16 * k)) 16).
Proof.
  induction n as [| n IH]; intros fuel i len pi po pv g m Hlen Hfuel Hiv Hvi Hoi Vi Vo Brk Bi Bv.
  - destruct fuel as [| fuel]; [lia |]. cbn [cbc_encrypt_loop].
    replace (i <? len) with false by (symmetry; apply Z.ltb_ge; lia).
    rewrite Nat.mul_0_r, !padd_0.
    exists g, m. split; [reflexivity |]. split; [reflexivity |]. split; [reflexivity |].
    split; [apply same_except_refl | intros k Hk; lia].
  - destruct fuel as [| fuel]; [lia |]. cbn [cbc_encrypt_loop].
    replace (i <? len) with true by (symmetry; apply Z.ltb_lt; lia).
    assert (Vi0 : valid m pi 16) by (unfold valid in *; lia).
    assert (Vo0 : valid m po 16) by (unfold valid in *; lia).
    pose proof (bytes_read_head m pi n Bi) as Bi0.
    destruct (cbc_encrypt_body pi po pv g m Hiv Hvi Hoi Vi0 Vo0 Brk Bi0 Bv)
      as [m1 [E [F [Ri Ro]]]].
    rewrite E. cbn [bind]. cbv zeta in F, Ri, Ro |- *.
    set (m3 := Cipher_at po g (BlockCopy po pi m1)) in *.
    set (g1 := Globals (RoundKey g) (Key g) (Some po)).
    assert (Bo3 : bytes (read m3 po 16)).
    { rewrite Ro, Ri. apply is_state_Cipher; [exact Brk |].
      now apply is_state_xor_block. }
    assert (Rt : read m3 (padd pi 16) (16 * n) = read m (padd pi 16) (16 * n)).
    { apply (same_except_read _ (padd pi 16) (16 * n) m m3 F).
      intros j Hj [[_ H] | [H _]]; cbn [padd base off] in H; [lia | auto]. }
    destruct (IH fuel (i + Z.of_nat KEYLEN) len (padd pi KEYLEN) (padd po KEYLEN) po g1 m3)
      as [g' [m' [EL [HR [HK [FI HB]]]]]].
    + unfold KEYLEN. lia.
    + lia.
    + reflexivity.
    + cbn [padd base]. auto.
    + cbn [padd base]. exact Hoi.
    + apply (same_except_valid _ _ _ m m3 F). unfold valid, KEYLEN in *.
      cbn [padd base off]. lia.
    + apply (same_except_valid _ _ _ m m3 F). unfold valid, KEYLEN in *.
      cbn [padd base off]. lia.
    + exact Brk.
    + unfold KEYLEN. rewrite Rt. apply bytes_read_tail. exact Bi.
    + exact Bo3.
    + unfold KEYLEN in *. rewrite ?(padd_padd pi), ?(padd_padd po) in EL.
      replace (16 + 16 * n)%nat with (16 * S n)%nat in EL by lia.
      exists g', m'. split; [exact EL |]. split; [exact HR |]. split; [exact HK |].
      assert (R0i : read m' pi 16 = read m3 pi 16).
      { apply (same_except_read _ pi 16 m3 m' FI).
        intros j Hj [[_ H] | [H _]]; cbn [padd base off] in H; [lia | auto]. }
      assert (R0o : read m' po 16 = read m3 po 16).
      { apply (same_except_read _ po 16 m3 m' FI).
        intros j Hj [[H _] | [_ H]]; cbn [padd base off] in H; [auto | lia]. }
      split.
      * apply (same_except_trans _ m m3 m').
        -- apply (same_except_weaken _ _ m m3 F).
           intros r j [[H1 H2] | [H1 H2]]; [left | right]; split; auto; lia.
        -- apply (same_except_weaken _ _ m3 m' FI).
           intros r j [[H1 H2] | [H1 H2]]; cbn [padd base off] in H1, H2;
             [left | right]; split; auto; lia.
      * intros k Hk. destruct k as [| k].
        -- rewrite Nat.mul_0_r, !padd_0. cbn [chain_iv].
           rewrite R0i, R0o. split; [exact Ri | exact Ro].
        -- destruct (HB k) as [HBi HBo]; [lia |].
           rewrite ?(padd_padd pi), ?(padd_padd po) in HBi.
           rewrite ?(padd_padd pi), ?(padd_padd po) in HBo.
           replace (16 + 16 * k)%nat with (16 * S k)%nat in HBi, HBo by lia.
           split; [| exact HBo].
           rewrite HBi. f_equal.
           ++ apply (same_except_read _ _ 16 m m3 F).
              intros j Hj [[_ H] | [H _]]; cbn [padd base off] in H; [lia | auto].
           ++ destruct k as [| k]; cbn [chain_iv].
              ** rewrite Nat.mul_0_r, padd_0. symmetry. exact R0o.
              ** rewrite padd_padd.
                 replace (16 + 16 * k)%nat with (16 * S k)%nat by lia. reflexivity.
Qed.

Lemma remainders_0 (n : nat) : u8 ((16 * Z.of_nat n) mod Z.of_nat KEYLEN) = 0.
Proof.
  change (Z.of_nat KEYLEN) with 16. rewrite Z.mul_comm, Z_mod_mult. reflexivity.
Qed.

(** [AES128_CBC_encrypt_buffer] on [n >= 1] whole blocks, with a key and an
    IV, all buffers being separate. *)
Lemma CBC_encrypt_spec (n : nat) (output input key iv : ptr) (g : globals) (m : mem) :
  (0 < n)%nat ->
  base input <> base output -> base key <> base output ->
  base iv <> base output -> base iv <> base input ->
  valid m input (16 * n) -> valid m output (16 * n) ->
  length (RoundKey g) = 176%nat ->
  bytes (read m input (16 * n)) -> bytes (read m key 16) -> bytes (read m iv 16) ->
  exists g' m',
    AES128_CBC_encrypt_buffer output input (16 * Z.of_nat n) (Some key) (Some iv) g m
    = Done (g', m') /\
    RoundKey g' = round_keys (read m key 16) /\
    same_except (fun r j => in_block input (16 * n) r j \/ in_block output (16 * n) r j)
      m m' /\
    forall k, (k < n)%nat ->
      read m' (padd input (16 * k)) 16
      = xor_block (read m (padd input (16 * k)) 16) (chain_iv m' output (read m iv 16) k) /\
      read m' (padd output (16 * k)) 16
      = Cipher (round_keys (read m key 16)) (read m' (padd input (16 * k)) 16).
Proof.
  intros Hn Hio Hko Hvo Hvi Vi Vo Hl Bi Bk Bv.
  unfold AES128_CBC_encrypt_buffer. cbv zeta. rewrite remainders_0.
  pose proof (BlockCopy_outside output input m) as F0.
  set (m0 := BlockCopy output input m) in *.
  rewrite (KeyExpansion_at_spec _ m0 key) by (cbn [Key RoundKey]; auto).
  cbn [bind Key Iv RoundKey].
  rewrite (same_outside_read output key 16 16 m m0 F0) by auto.
  set (g2 := Globals (round_keys (read m key 16)) (Some key) (Some iv)).
  assert (Ri0 : read m0 input (16 * n) = read m input (16 * n))
    by (apply (same_outside_read output input 16 (16 * n) m m0 F0); auto).
  assert (Rv0 : read m0 iv 16 = read m iv 16)
    by (apply (same_outside_read output iv 16 16 m m0 F0); auto).
  destruct (cbc_encrypt_loop_spec n (loop_fuel (16 * Z.of_nat n)) 0 (16 * Z.of_nat n)
              input output iv g2 m0) as [g' [m' [EL [HR [HK [FL HB]]]]]].
  - lia.
  - unfold loop_fuel. lia.
  - reflexivity.
  - exact Hvi.
  - auto.
  - eapply same_outside_valid; [exact F0 | exact Vi].
  - eapply same_outside_valid; [exact F0 | exact Vo].
  - unfold g2. cbn [RoundKey]. apply bytes_round_keys. exact Bk.
  - rewrite Ri0. exact Bi.
  - rewrite Rv0. exact Bv.
  - rewrite EL. cbn [bind negb Z.eqb].
    exists g', m'. split; [reflexivity |]. split; [exact HR |]. split.
    + apply (same_except_trans _ m m0 m').
      * apply (same_outside_except _ output 16 m m0 F0).
        intros r j [H1 H2]. right. split; [exact H1 | lia].
      * exact FL.
    + intros k Hk. destruct (HB k Hk) as [HBi HBo]. rewrite Rv0 in HBi.
      split; [| exact HBo]. rewrite HBi. f_equal.
      apply (same_outside_read output _ 16 16 m m0 F0). left. exact Hio.
Qed.

(** C9: [AES128_CBC_encrypt_buffer] writes into the caller's input buffer.
    After a call with a length of [n] whole blocks (separate buffers, a key
    and an IV given), block [k] of the input buffer holds its original
    contents XORed with the chaining block in effect for it (the supplied IV
    for block 0, block [k-1] of the output after that), and block [k] of the
    output buffer holds the encryption of that XORed block. *)
Theorem CBC_encrypt_mutates_input (n : nat) (output input key iv : ptr)
  (g : globals) (m : mem) :
  base input <> base output -> base key <> base output ->
  base iv <> base output -> base iv <> base input ->
  valid m input (16 * n) -> valid m output (16 * n) ->
  valid m key 16 -> valid m iv 16 ->
  16 * Z.of_nat n < 2 ^ 32 ->
  length (RoundKey g) = 176%nat ->
  bytes (read m input (16 * n)) -> bytes (read m key 16) -> bytes (read m iv 16) ->
  exists g' m',
    AES128_CBC_encrypt_buffer output input (16 * Z.of_nat n) (Some key) (Some iv) g m
    = Done (g', m') /\
    forall k, (k < n)%nat ->
      read m' (padd input (16 * k)) 16
      = xor_block (read m (padd input (16 * k)) 16)
          (match k with
           | O => read m iv 16
           | S k' => read m' (padd output (16 * k')) 16
           end) /\
      read m' (padd output (16 * k)) 16
      = Cipher (round_keys (read m key 16)) (read m' (padd input (16 * k)) 16).
Proof.
  intros Hio Hko Hvo Hvi Vi Vo Vk Vv Hlen Hl Bi Bk Bv.
  destruct n as [| n].
  - unfold AES128_CBC_encrypt_buffer. cbv zeta.
    change (16 * Z.of_nat 0) with 0.
    rewrite (KeyExpansion_at_spec _ _ key) by (cbn [Key RoundKey]; auto).
    cbn [bind Key Iv RoundKey]. unfold loop_fuel. change (Z.to_nat 0) with 0%nat.
    cbn [cbc_encrypt_loop]. change (0 <? 0) with false. cbn [bind].
    change (u8 (0 mod Z.of_nat KEYLEN)) with 0. cbn [negb Z.eqb].
    eexists. eexists. split; [reflexivity | intros k Hk; lia].
  - destruct (CBC_encrypt_spec (S n) output input key iv g m) as [g' [m' [E [_ [_ HB]]]]];
      auto; [lia |].
    exists g', m'. split; [exact E |]. intros k Hk. exact (HB k Hk).
Qed.

(** ** CBC decryption *)
(** One turn of the loop of [AES128_CBC_decrypt_buffer]. *)
Lemma cbc_decrypt_body (pi po pv : ptr) (g : globals) (m : mem) :
  Iv g = Some pv -> base pv <> base po -> base po <> base pi ->
  valid m po 16 ->
  bytes (RoundKey g) -> bytes (read m pi 16) -> bytes (read m pv 16) ->
  exists m3,
    XorWithIv po g (InvCipher_at po g (BlockCopy po pi m)) = Done m3 /\
    same_outside po 16 m m3 /\
    read m3 po 16 = xor_block (InvCipher (RoundKey g) (read m pi 16)) (read m pv 16).
Proof.
  intros Hiv Hvo Hoi Vo Brk Bi Bv.
  pose proof (BlockCopy_outside po pi m) as F1.
  pose proof (BlockCopy_read po pi m (not_eq_sym Hoi) Vo) as R1.
  set (m1 := BlockCopy po pi m) in *.
  assert (Vo1 : valid m1 po 16) by (eapply same_outside_valid; [exact F1 | exact Vo]).
  pose proof (InvCipher_at_outside po g m1) as F2.
  assert (B1 : bytes (read m1 po 16)) by (rewrite R1; exact Bi).
  pose proof (InvCipher_at_read po g m1 Vo1 Brk B1) as R2.
  set (m2 := InvCipher_at po g m1) in *.
  assert (Vo2 : valid m2 po 16) by (eapply same_outside_valid; [exact F2 | exact Vo1]).
  destruct (XorWithIv_spec po pv g m2 Hiv Hvo Vo2) as [m3 [E [F3 R3]]].
  exists m3. split; [exact E |]. split.
  - apply (same_outside_trans po 16 m m1 m3 F1).
    apply (same_outside_trans po 16 m1 m2 m3 F2 F3).
  - rewrite R3, R2, R1. f_equal.
    rewrite (same_outside_read po pv 16 16 m1 m2 F2) by (left; exact Hvo).
    apply (same_outside_read po pv 16 16 m m1 F1). left. exact Hvo.
Qed.

(** The loop of [AES128_CBC_decrypt_buffer] over [n] whole blocks. *)
Lemma cbc_decrypt_loop_spec (n : nat) :
  forall (fuel : nat) (i len : Z) (pi po pv : ptr) (g : globals) (m : mem),
  len = i + 16 * Z.of_nat n -> (n < fuel)%nat ->
  Iv g = Some pv -> base pv <> base po -> base po <> base pi ->
  valid m po (16 * n) ->
  bytes (RoundKey g) -> bytes (read m pi (16 * n)) -> bytes (read m pv 16) ->
  exists g' m',
    cbc_decrypt_loop fuel i len pi po g m
    = Done (padd pi (16 * n), padd po (16 * n), g', m') /\
    RoundKey g' = RoundKey g /\ Key g' = Key g /\
    same_outside po (16 * n) m m' /\
    forall k, (k < n)%nat ->
      read m' (padd po (16 * k)) 16
      = xor_block (InvCipher (RoundKey g) (read m (padd pi (16 * k)) 16))
          (match k with
           | O => read m pv 16
           | S k' => read m (padd pi (16 * k')) 16
           end).
Proof.
  induction n as [| n IH]; intros fuel i len pi po pv g m Hlen Hfuel Hiv Hvo Hoi Vo Brk Bi Bv.
  - destruct fuel as [| fuel]; [lia |]. cbn [cbc_decrypt_loop].
    replace (i <? len) with false by (symmetry; apply Z.ltb_ge; lia).
    rewrite Nat.mul_0_r, !padd_0.
    exists g, m. split; [reflexivity |]. split; [reflexivity |]. split; [reflexivity |].
    split; [apply same_outside_refl | intros k Hk; lia].
  - destruct fuel as [| fuel]; [lia |]. cbn [cbc_decrypt_loop].
    replace (i <? len) with true by (symmetry; apply Z.ltb_lt; lia).
    assert (Vo0 : valid m po 16) by (unfold valid in *; lia).
    pose proof (bytes_read_head m pi n Bi) as Bi0.
    destruct (cbc_decrypt_body pi po pv g m Hiv Hvo Hoi Vo0 Brk Bi0 Bv) as [m3 [E [F R]]].
    cbv zeta. rewrite E. cbn [bind].
    set (g1 := Globals (RoundKey g) (Key g) (Some pi)).
    assert (Rin : forall q k, base q = base pi -> read m3 q k = read m q k).
    { intros q k Hq. apply (same_outside_read po q 16 k m m3 F). left. congruence. }
    destruct (IH fuel (i + Z.of_nat KEYLEN) len (padd pi KEYLEN) (padd po KEYLEN) pi g1 m3)
      as [g' [m' [EL [HR [HK [FI HB]]]]]].
    + unfold KEYLEN. lia.
    + lia.
    + reflexivity.
    + cbn [padd base]. auto.
    + cbn [padd base]. exact Hoi.
    + apply (same_outside_valid po _ 16 _ m m3 F). unfold valid, KEYLEN in *.
      cbn [padd base off]. lia.
    + exact Brk.
    + unfold KEYLEN. rewrite Rin by reflexivity. apply bytes_read_tail. exact Bi.
    + rewrite Rin by reflexivity. exact Bi0.
    + unfold KEYLEN in *. rewrite ?(padd_padd pi), ?(padd_padd po) in EL.
      replace (16 + 16 * n)%nat with (16 * S n)%nat in EL by lia.
      exists g', m'. split; [exact EL |]. split; [exact HR |]. split; [exact HK |].
      split.
      * apply (same_outside_trans po (16 * S n) m m3 m').
        -- apply (same_outside_weaken po po (16 * S n) 16 m m3 F); lia.
        -- apply (same_outside_weaken po (padd po 16) (16 * S n) (16 * n) m3 m' FI);
             cbn [padd base off]; lia.
      * intros k Hk. destruct k as [| k].
        -- rewrite Nat.mul_0_r, !padd_0.
           rewrite (same_outside_read (padd po 16) po (16 * n) 16 m3 m' FI)
             by (right; left; cbn [padd off]; lia).
           exact R.
        -- specialize (HB k ltac:(lia)).
           rewrite ?(padd_padd pi), ?(padd_padd po) in HB.
           replace (16 + 16 * k)%nat with (16 * S k)%nat in HB by lia.
           rewrite HB. rewrite Rin by reflexivity. f_equal.
           destruct k as [| k].
           ++ rewrite Nat.mul_0_r, padd_0. apply Rin. reflexivity.
           ++ rewrite padd_padd.
              replace (16 + 16 * k)%nat with (16 * S k)%nat by lia.
              apply Rin. reflexivity.
Qed.

(** [AES128_CBC_decrypt_buffer] on [n >= 1] whole blocks, with a key and an
    IV, the output buffer being separate from the other three. *)
Lemma CBC_decrypt_spec (n : nat) (output input key iv : ptr) (g : globals) (m : mem) :
  (0 < n)%nat ->
  base input <> base output -> base key <> base output -> base iv <> base output ->
  valid m output (16 * n) ->
  length (RoundKey g) = 176%nat ->
  bytes (read m input (16 * n)) -> bytes (read m key 16) -> bytes (read m iv 16) ->
  exists g' m',
    AES128_CBC_decrypt_buffer output input (16 * Z.of_nat n) (Some key) (Some iv) g m
    = Done (g', m') /\
    RoundKey g' = round_keys (read m key 16) /\
    same_outside output (16 * n) m m' /\
    forall k, (k < n)%nat ->
      read m' (padd output (16 * k)) 16
      = xor_block (InvCipher (round_keys (read m key 16)) (read m (padd input (16 * k)) 16))
          (match k with
           | O => read m iv 16
           | S k' => read m (padd input (16 * k')) 16
           end).
Proof.
  intros Hn Hio Hko Hvo Vo Hl Bi Bk Bv.
  unfold AES128_CBC_decrypt_buffer. cbv zeta. rewrite remainders_0.
  pose proof (BlockCopy_outside output input m) as F0.
  set (m0 := BlockCopy output input m) in *.
  rewrite (KeyExpansion_at_spec _ m0 key) by (cbn [Key RoundKey]; auto).
  cbn [bind Key Iv RoundKey].
  rewrite (same_outside_read output key 16 16 m m0 F0) by auto.
  set (g2 := Globals (round_keys (read m key 16)) (Some key) (Some iv)).
  assert (R0 : forall q k, base q <> base output -> read m0 q k = read m q k).
  { intros q k Hq. apply (same_outside_read output q 16 k m m0 F0). left. exact Hq. }
  destruct (cbc_decrypt_loop_spec n (loop_fuel (16 * Z.of_nat n)) 0 (16 * Z.of_nat n)
              input output iv g2 m0) as [g' [m' [EL [HR [HK [FL HB]]]]]].
  - lia.
  - unfold loop_fuel. lia.
  - reflexivity.
  - exact Hvo.
  - auto.
  - eapply same_outside_valid; [exact F0 | exact Vo].
  - unfold g2. cbn [RoundKey]. apply bytes_round_keys. exact Bk.
  - rewrite R0 by exact Hio. exact Bi.
  - rewrite R0 by exact Hvo. exact Bv.
  - rewrite EL. cbn [bind negb Z.eqb].
    exists g', m'. split; [reflexivity |]. split; [exact HR |]. split.
    + apply (same_outside_trans output (16 * n) m m0 m'); [| exact FL].
      apply (same_outside_weaken output output (16 * n) 16 m m0 F0); lia.
    + intros k Hk. rewrite (HB k Hk). unfold g2. cbn [RoundKey].
      rewrite (R0 (padd input (16 * k))) by exact Hio. f_equal.
      destruct k as [| k]; [apply R0; exact Hvo | apply R0; exact Hio].
Qed.

(** C6: for every buffer of [n >= 1] whole blocks, every 16-byte key and
    every 16-byte IV, in separate buffers, [AES128_CBC_decrypt_buffer] with
    the key and the IV applied to the output of [AES128_CBC_encrypt_buffer]
    gives a buffer equal to the original contents of the input buffer. *)
Theorem CBC_decrypt_encrypt (n : nat) (output input key iv output2 : ptr)
  (g : globals) (m : mem) :
  (0 < n)%nat -> 16 * Z.of_nat n < 2 ^ 32 ->
  base input <> base output -> base key <> base output -> base iv <> base output ->
  base iv <> base input -> base key <> base input ->
  base output <> base output2 -> base key <> base output2 -> base iv <> base output2 ->
  valid m input (16 * n) -> valid m output (16 * n) -> valid m output2 (16 * n) ->
  valid m key 16 -> valid m iv 16 ->
  length (RoundKey g) = 176%nat ->
  bytes (read m input (16 * n)) -> bytes (read m key 16) -> bytes (read m iv 16) ->
  exists g1 m1 g2 m2,
    AES128_CBC_encrypt_buffer output input (16 * Z.of_nat n) (Some key) (Some iv) g m
    = Done (g1, m1) /\
    AES128_CBC_decrypt_buffer output2 output (16 * Z.of_nat n) (Some key) (Some iv) g1 m1
    = Done (g2, m2) /\
    read m2 output2 (16 * n) = read m input (16 * n).
Proof.
  intros Hn Hlen Hio Hko Hvo Hvi Hki Hoo Hko2 Hvo2 Vi Vo Vo2 Vk Vv Hl Bi Bk Bv.
  destruct (CBC_encrypt_spec n output input key iv g m) as [g1 [m1 [E1 [HR1 [F1 HB1]]]]];
    auto.
  pose proof (bytes_round_keys _ Bk) as Brk.
  assert (Rk : read m1 key 16 = read m key 16).
  { apply (same_except_read _ key 16 m m1 F1). intros j Hj [[H _] | [H _]]; auto. }
  assert (Rv : read m1 iv 16 = read m iv 16).
  { apply (same_except_read _ iv 16 m m1 F1). intros j Hj [[H _] | [H _]]; auto. }
  (* every block of the ciphertext is a state *)
  assert (Bc : forall k, (k < n)%nat ->
             is_state (read m1 (padd input (16 * k)) 16) /\
             bytes (read m1 (padd output (16 * k)) 16)).
  { intros k. induction k as [| k IHk]; intros Hk.
    - destruct (HB1 0%nat Hk) as [Hi Ho]. cbn [chain_iv] in Hi.
      assert (Hs : is_state (read m1 (padd input (16 * 0)) 16)).
      { rewrite Hi. apply is_state_xor_block; [| exact Bv].
        apply (bytes_block m input n 0 Bi Hk). }
      split; [exact Hs |]. rewrite Ho. apply is_state_Cipher; assumption.
    - destruct (HB1 (S k) Hk) as [Hi Ho]. cbn [chain_iv] in Hi.
      destruct IHk as [_ IHo]; [lia |].
      assert (Hs : is_state (read m1 (padd input (16 * S k)) 16)).
      { rewrite Hi. apply is_state_xor_block; [| exact IHo].
        apply (bytes_block m input n (S k) Bi Hk). }
      split; [exact Hs |]. rewrite Ho. apply is_state_Cipher; assumption. }
  assert (Bo : bytes (read m1 output (16 * n))).
  { apply bytes_read_iff. intros i Hi.
    assert (Hk : (i / 16 < n)%nat) by (apply Nat.Div0.div_lt_upper_bound; lia).
    destruct (Bc _ Hk) as [_ Hb]. rewrite bytes_read_iff in Hb.
    specialize (Hb (i mod 16)%nat ltac:(apply Nat.mod_upper_bound; lia)).
    rewrite load_padd, <- (Nat.div_mod_eq i 16) in Hb. exact Hb. }
  destruct (CBC_decrypt_spec n output2 output key iv g1 m1)
    as [g2 [m2 [E2 [HR2 [F2 HB2]]]]]; auto.
  - apply (same_except_valid _ _ _ m m1 F1). exact Vo2.
  - rewrite HR1. apply length_round_keys.
  - rewrite Rk. exact Bk.
  - rewrite Rv. exact Bv.
  - exists g1, m1, g2, m2. split; [exact E1 |]. split; [exact E2 |].
    apply read_blocks. intros k Hk. rewrite (HB2 k Hk), Rk.
    destruct (HB1 k Hk) as [Hi Ho]. destruct (Bc k Hk) as [Hs _].
    rewrite Ho, InvCipher_Cipher by assumption. rewrite Hi.
    assert (Hl16 : length (read m (padd input (16 * k)) 16) = 16%nat) by apply length_read.
    destruct k as [| k]; cbn [chain_iv].
    + rewrite Rv. apply xor_block_involutive. exact Hl16.
    + apply xor_block_involutive. exact Hl16.
Qed.

Lemma CBC_encrypt_mutates_input_witness :
  base (Ptr 0 0) <> base (Ptr 1 0) /\ base (Ptr 2 0) <> base (Ptr 1 0) /\
  base (Ptr 3 0) <> base (Ptr 1 0) /\ base (Ptr 3 0) <> base (Ptr 0 0) /\
  valid cbc_mem (Ptr 0 0) (16 * 2) /\ valid cbc_mem (Ptr 1 0) (16 * 2) /\
  valid cbc_mem (Ptr 2 0) 16 /\ valid cbc_mem (Ptr 3 0) 16 /\
  16 * Z.of_nat 2 < 2 ^ 32 /\
  length (RoundKey tv_globals) = 176%nat /\
  bytes (read cbc_mem (Ptr 0 0) (16 * 2)) /\ bytes (read cbc_mem (Ptr 2 0) 16) /\
  bytes (read cbc_mem (Ptr 3 0) 16) /\
  exists g' m',
    AES128_CBC_encrypt_buffer (Ptr 1 0) (Ptr 0 0) (16 * Z.of_nat 2)
      (Some (Ptr 2 0)) (Some (Ptr 3 0)) tv_globals cbc_mem
    = Done (g', m') /\
    forall k, (k < 2)%nat ->
      read m' (padd (Ptr 0 0) (16 * k)) 16
      = xor_block (read cbc_mem (padd (Ptr 0 0) (16 * k)) 16)
          (match k with
           | O => read cbc_mem (Ptr 3 0) 16
           | S k' => read m' (padd (Ptr 1 0) (16 * k')) 16
           end) /\
      read m' (padd (Ptr 1 0) (16 * k)) 16
      = Cipher (round_keys (read cbc_mem (Ptr 2 0) 16)) (read m' (padd (Ptr 0 0) (16 * k)) 16).
Proof.
  assert (H1 : base (Ptr 0 0) <> base (Ptr 1 0)) by (cbn; lia).
  assert (H2 : base (Ptr 2 0) <> base (Ptr 1 0)) by (cbn; lia).
  assert (H3 : base (Ptr 3 0) <> base (Ptr 1 0)) by (cbn; lia).
  assert (H4 : base (Ptr 3 0) <> base (Ptr 0 0)) by (cbn; lia).
  assert (H5 : valid cbc_mem (Ptr 0 0) (16 * 2)) by (unfold valid; cbn; lia).
  assert (H6 : valid cbc_mem (Ptr 1 0) (16 * 2)) by (unfold valid; cbn; lia).
  assert (H7 : valid cbc_mem (Ptr 2 0) 16) by (unfold valid; cbn; lia).
  assert (H8 : valid cbc_mem (Ptr 3 0) 16) by (unfold valid; cbn; lia).
  assert (H9 : 16 * Z.of_nat 2 < 2 ^ 32) by reflexivity.
  assert (H10 : length (RoundKey tv_globals) = 176%nat) by reflexivity.
  assert (H11 : bytes (read cbc_mem (Ptr 0 0) (16 * 2)))
    by (apply bytes_forallb; reflexivity).
  assert (H12 : bytes (read cbc_mem (Ptr 2 0) 16)) by (apply bytes_forallb; reflexivity).
  assert (H13 : bytes (read cbc_mem (Ptr 3 0) 16)) by (apply bytes_forallb; reflexivity).
  do 13 (split; [assumption |]).
  exact (CBC_encrypt_mutates_input 2 (Ptr 1 0) (Ptr 0 0) (Ptr 2 0) (Ptr 3 0)
           tv_globals cbc_mem H1 H2 H3 H4 H5 H6 H7 H8 H9 H10 H11 H12 H13).
Defined.

Lemma CBC_decrypt_encrypt_witness :
  (0 < 2)%nat /\ 16 * Z.of_nat 2 < 2 ^ 32 /\
  base (Ptr 0 0) <> base (Ptr 1 0) /\ base (Ptr 2 0) <> base (Ptr 1 0) /\
  base (Ptr 3 0) <> base (Ptr 1 0) /\ base (Ptr 3 0) <> base (Ptr 0 0) /\
  base (Ptr 2 0) <> base (Ptr 0 0) /\ base (Ptr 1 0) <> base (Ptr 4 0) /\
  base (Ptr 2 0) <> base (Ptr 4 0) /\ base (Ptr 3 0) <> base (Ptr 4 0) /\
  valid cbc_mem (Ptr 0 0) (16 * 2) /\ valid cbc_mem (Ptr 1 0) (16 * 2) /\
  valid cbc_mem (Ptr 4 0) (16 * 2) /\
  valid cbc_mem (Ptr 2 0) 16 /\ valid cbc_mem (Ptr 3 0) 16 /\
  length (RoundKey tv_globals) = 176%nat /\
  bytes (read cbc_mem (Ptr 0 0) (16 * 2)) /\ bytes (read cbc_mem (Ptr 2 0) 16) /\
  bytes (read cbc_mem (Ptr 3 0) 16) /\
  exists g1 m1 g2 m2,
    AES128_CBC_encrypt_buffer (Ptr 1 0) (Ptr 0 0) (16 * Z.of_nat 2)
      (Some (Ptr 2 0)) (Some (Ptr 3 0)) tv_globals cbc_mem
    = Done (g1, m1) /\
    AES128_CBC_decrypt_buffer (Ptr 4 0) (Ptr 1 0) (16 * Z.of_nat 2)
      (Some (Ptr 2 0)) (Some (Ptr 3 0)) g1 m1
    = Done (g2, m2) /\
    read m2 (Ptr 4 0) (16 * 2) = read cbc_mem (Ptr 0 0) (16 * 2).
Proof.
  assert (H0 : (0 < 2)%nat) by lia.
  assert (H9 : 16 * Z.of_nat 2 < 2 ^ 32) by reflexivity.
  assert (H1 : base (Ptr 0 0) <> base (Ptr 1 0)) by (cbn; lia).
  assert (H2 : base (Ptr 2 0) <> base (Ptr 1 0)) by (cbn; lia).
  assert (H3 : base (Ptr 3 0) <> base (Ptr 1 0)) by (cbn; lia).
  assert (H4 : base (Ptr 3 0) <> base (Ptr 0 0)) by (cbn; lia).
  assert (H4' : base (Ptr 2 0) <> base (Ptr 0 0)) by (cbn; lia).
  assert (H4a : base (Ptr 1 0) <> base (Ptr 4 0)) by (cbn; lia).
  assert (H4b : base (Ptr 2 0) <> base (Ptr 4 0)) by (cbn; lia).
  assert (H4c : base (Ptr 3 0) <> base (Ptr 4 0)) by (cbn; lia).
  assert (H5 : valid cbc_mem (Ptr 0 0) (16 * 2)) by (unfold valid; cbn; lia).
  assert (H6 : valid cbc_mem (Ptr 1 0) (16 * 2)) by (unfold valid; cbn; lia).
  assert (H6' : valid cbc_mem (Ptr 4 0) (16 * 2)) by (unfold valid; cbn; lia).
  assert (H7 : valid cbc_mem (Ptr 2 0) 16) by (unfold valid; cbn; lia).
  assert (H8 : valid cbc_mem (Ptr 3 0) 16) by (unfold valid; cbn; lia).
  assert (H10 : length (RoundKey tv_globals) = 176%nat) by reflexivity.
  assert (H11 : bytes (read cbc_mem (Ptr 0 0) (16 * 2)))
    by (apply bytes_forallb; reflexivity).
  assert (H12 : bytes (read cbc_mem (Ptr 2 0) 16)) by (apply bytes_forallb; reflexivity).
  assert (H13 : bytes (read cbc_mem (Ptr 3 0) 16)) by (apply bytes_forallb; reflexivity).
  do 19 (split; [assumption |]).
  exact (CBC_decrypt_encrypt 2 (Ptr 1 0) (Ptr 0 0) (Ptr 2 0) (Ptr 3 0) (Ptr 4 0)
           tv_globals cbc_mem H0 H9 H1 H2 H3 H4 H4' H4a H4b H4c H5 H6 H6' H7 H8
           H10 H11 H12 H13).
Defined.

(** C8, on the code: with [length = 20] the loop condition [i < length]
    holds for [i = 0] and [i = 16], so the loop runs twice and takes the four
    trailing bytes (input bytes 16 to 19) into a chained block of its own;
    the tail code then starts at input byte 32.  The final output block is
    the encryption of the four bytes at input offset 32 followed by twelve
    zero bytes, and it is not the encryption of the four trailing bytes
    followed by twelve zero bytes. *)
Theorem CBC_encrypt_tail_block_at_length_20 :
  match AES128_CBC_encrypt_buffer (Ptr 1 0) (Ptr 0 0) 20 (Some (Ptr 2 0)) (Some (Ptr 3 0))
          tv_globals tail_mem with
  | Done (g', m') =>
      length (region m' 1) = 48%nat /\
      read m' (Ptr 1 32) 16
      = Cipher (round_keys tv_key) (read tail_mem (Ptr 0 32) 4 ++ repeat 0 12) /\
      read m' (Ptr 1 32) 16
      <> Cipher (round_keys tv_key) (read tail_mem (Ptr 0 16) 4 ++ repeat 0 12) /\
      read m' (Ptr 1 16) 16
      <> Cipher (round_keys tv_key) (read tail_mem (Ptr 0 16) 4 ++ repeat 0 12)
  | _ => False
  end.
Proof.
  vm_compute. repeat split; discriminate.
Qed.
